(** * Samosa Sharpness Analyzer: the logic of [src/App.jsx]

    A shallow embedding of the three pieces of logic of the application:
    - [getImageData], the file-to-base64 helper (lines 14-36);
    - [processGeminiResponse], which turns the free text of the model's
      reply into an analysis object or an error (lines 46-75);
    - the component state ([image], [step], [currentMessageIndex], [score],
      [analysis]) with its handlers [analyzeImage], [onImageChange] and the
      "Analyze Another Samosa" button (lines 39-43, 78-161, 226-231).

    The JavaScript built-ins the code calls ([String.prototype.toLowerCase],
    [includes], [startsWith], [split], [match] on the regular expression
    [/\{[\s\S]*\}/], [JSON.parse], [FileReader.readAsDataURL]) are modelled
    in the first half of the file, each under the name the source uses. *)

From Stdlib Require Import List NArith ZArith Bool Ascii String Lia.
From Stdlib Require Strings.Byte.
Import ListNotations.

#[local] Set Warnings "-register-all".

Local Open Scope N_scope.

(** ** JavaScript strings

    A JavaScript string is a sequence of UTF-16 code units.  A code unit is
    a number; the program only ever inspects ASCII ones. *)

Module JsString.

Definition code_unit := N.
Definition jsstring := list code_unit.

Definition of_ascii (c : ascii) : code_unit := N_of_ascii c.

Fixpoint str (s : string) : jsstring :=
  match s with
  | EmptyString => []
  | String c s' => of_ascii c :: str s'
  end.

(** Test inputs are written as JavaScript writes them inside single
    quotes: [qstr] reads every apostrophe of its argument as a double
    quote. *)
Definition qstr (s : string) : jsstring :=
  map (fun c => if c =? 39 then 34 else c) (str s).

Fixpoint eqb (a b : jsstring) : bool :=
  match a, b with
  | [], [] => true
  | x :: a', y :: b' => (x =? y) && eqb a' b'
  | _, _ => false
  end.

(** [s.startsWith(p)] *)
Fixpoint startsWith (p s : jsstring) : bool :=
  match p, s with
  | [], _ => true
  | x :: p', y :: s' => (x =? y) && startsWith p' s'
  | _ :: _, [] => false
  end.

(** [s.includes(p)]: [p] occurs somewhere in [s]. *)
Fixpoint includes (p s : jsstring) : bool :=
  startsWith p s ||
  match s with
  | [] => false
  | _ :: s' => includes p s'
  end.

(** [s.toLowerCase()].  The result of lower-casing one code unit: the
    letters A-Z move to a-z.  Outside ASCII the Unicode lower-case mapping
    produces an ASCII code unit for two characters only, U+0130 (to "i"
    followed by U+0307) and U+212A, the Kelvin sign (to "k"); every other
    non-ASCII code unit maps to non-ASCII ones, which no ASCII search can
    tell apart, so they are left as they are. *)
Definition lower_unit (c : code_unit) : jsstring :=
  if (65 <=? c) && (c <=? 90) then [c + 32]
  else if c =? 304 then [105; 775]
  else if c =? 8490 then [107]
  else [c].

Definition toLowerCase (s : jsstring) : jsstring := flat_map lower_unit s.

(** [s.split(sep)] for a one-unit separator: the pieces between the
    separators, at least one piece. *)
Fixpoint split (sep : code_unit) (s : jsstring) : list jsstring :=
  match s with
  | [] => [[]]
  | c :: s' =>
      if c =? sep then [] :: split sep s'
      else match split sep s' with
           | [] => [[c]]
           | piece :: rest => (c :: piece) :: rest
           end
  end.

(** A string is falsy exactly when it is empty. *)
Definition truthy (s : jsstring) : bool :=
  match s with [] => false | _ => true end.

End JsString.

Import JsString.

(** Code units the program and the JSON grammar name. *)
Definition TAB : code_unit := 9.
Definition LF : code_unit := 10.
Definition CR : code_unit := 13.
Definition SPACE : code_unit := 32.
Definition QUOTE : code_unit := 34.
Definition PLUS : code_unit := 43.
Definition COMMA : code_unit := 44.
Definition MINUS : code_unit := 45.
Definition DOT : code_unit := 46.
Definition SLASH : code_unit := 47.
Definition COLON : code_unit := 58.
Definition LBRACKET : code_unit := 91.
Definition BACKSLASH : code_unit := 92.
Definition RBRACKET : code_unit := 93.
Definition LBRACE : code_unit := 123.
Definition RBRACE : code_unit := 125.

(** ** The regular expression [/\{[\s\S]*\}/]

    [responseText.match(jsonRegex)] looks for the leftmost position where
    the expression matches and, there, for the longest run of [[\s\S]*]
    (any code unit, line ends included) that still leaves a closing brace.
    The model returns element 0 of the match, [None] for [null]. *)

Module Regex.

(** [[\s\S]*\}] matched greedily at the head of [s]: the star first tries
    to swallow one more unit, and gives it back only when the rest has no
    closing brace. *)
Fixpoint any_star_rbrace (s : jsstring) : option jsstring :=
  match s with
  | [] => None
  | c :: s' =>
      match any_star_rbrace s' with
      | Some m => Some (c :: m)
      | None => if c =? RBRACE then Some [c] else None
      end
  end.

(** The whole expression matched at the head of [s]. *)
Definition match_here (s : jsstring) : option jsstring :=
  match s with
  | [] => None
  | c :: s' =>
      if c =? LBRACE then option_map (cons c) (any_star_rbrace s') else None
  end.

(** The search over start positions, left to right. *)
Fixpoint jsonRegex_match (s : jsstring) : option jsstring :=
  match match_here s with
  | Some m => Some m
  | None =>
      match s with
      | [] => None
      | _ :: s' => jsonRegex_match s'
      end
  end.

(** "A [{] followed later by a [}]". *)
Definition braced_span (t : jsstring) : Prop :=
  exists a b c, t = a ++ LBRACE :: b ++ RBRACE :: c.

End Regex.

(** ** JSON values and [JSON.parse] *)

Module Json.

(** The mathematical value of a JSON number literal:
    [(-1)^negative * digits * 10^exponent].  The Number the engine stores
    is this value rounded to an IEEE 754 double. *)
Record number := mkNumber { negative : bool; digits : N; exponent : Z }.

Inductive JSON :=
| JNull
| JBool (b : bool)
| JNumber (n : number)
| JString (s : jsstring)
| JArray (elements : list JSON)
| JObject (properties : list (jsstring * JSON)).

(** A whole number as a JSON value. *)
Definition JInt (n : N) : JSON := JNumber (mkNumber false n 0).

(** The double nearest to a literal is +0 or -0 exactly when the literal's
    magnitude is at most 2^-1075, half of the smallest positive double (a
    tie at 2^-1075 goes to the even neighbour, which is zero). *)
Definition rounds_to_zero (n : number) : bool :=
  (digits n =? 0) ||
  ((exponent n <? 0)%Z &&
   (digits n * 2 ^ 1075 <=? 10 ^ Z.to_N (- exponent n))).

(** [ToBoolean] on a parsed value: [null], [false], zero and the empty
    string are falsy; arrays and objects are truthy, empty ones too. *)
Definition truthy (v : JSON) : bool :=
  match v with
  | JNull => false
  | JBool b => b
  | JNumber n => negb (rounds_to_zero n)
  | JString s => JsString.truthy s
  | JArray _ => true
  | JObject _ => true
  end.

(** [CreateDataProperty]: a repeated key keeps its place and takes the new
    value; a new key goes last. *)
Fixpoint set_prop (k : jsstring) (v : JSON) (ps : list (jsstring * JSON))
  : list (jsstring * JSON) :=
  match ps with
  | [] => [(k, v)]
  | (k', v') :: ps' =>
      if JsString.eqb k k' then (k, v) :: ps' else (k', v') :: set_prop k v ps'
  end.

Fixpoint lookup (k : jsstring) (ps : list (jsstring * JSON)) : option JSON :=
  match ps with
  | [] => None
  | (k', v) :: ps' => if JsString.eqb k k' then Some v else lookup k ps'
  end.

(** [v.k] for a key that is neither an array index nor a built-in of
    [Object.prototype], [Array.prototype] or a wrapper's prototype (so for
    ["score"] and ["corners"]): the own property of an object, [undefined]
    ([None]) otherwise.  The program reads properties of truthy values
    only, so [null.k], which throws, does not arise. *)
Definition get (v : JSON) (k : jsstring) : option JSON :=
  match v with
  | JObject ps => lookup k ps
  | _ => None
  end.

(** [ToBoolean] on a value that may be [undefined]. *)
Definition truthy_opt (v : option JSON) : bool :=
  match v with
  | Some v' => truthy v'
  | None => false
  end.

(** *** The parser

    [JSON.parse] follows the grammar of ECMA-404: white space is tab, line
    feed, carriage return and space; a string is double-quoted, holds no
    raw control character, and knows the escapes made of a backslash and
    one of: a double quote, a backslash, a slash, b, f, n, r, t, or u with
    four hexadecimal digits; a number is an optional minus sign, an
    integer part (a lone 0, or digits that do not start with 0), an
    optional fraction (a dot and one or more digits) and an optional
    exponent (e or E, an optional sign, one or more digits); no trailing
    commas, no comments. *)

Definition is_ws (c : code_unit) : bool :=
  (c =? TAB) || (c =? LF) || (c =? CR) || (c =? SPACE).

Fixpoint skip_ws (s : jsstring) : jsstring :=
  match s with
  | c :: s' => if is_ws c then skip_ws s' else s
  | [] => []
  end.

Definition is_digit (c : code_unit) : bool := (48 <=? c) && (c <=? 57).

Definition hex_value (c : code_unit) : option N :=
  if is_digit c then Some (c - 48)
  else if (97 <=? c) && (c <=? 102) then Some (c - 87)
  else if (65 <=? c) && (c <=? 70) then Some (c - 55)
  else None.

Definition hex4 (a b c d : code_unit) : option code_unit :=
  match hex_value a, hex_value b, hex_value c, hex_value d with
  | Some x, Some y, Some z, Some w => Some (((x * 16 + y) * 16 + z) * 16 + w)
  | _, _, _, _ => None
  end.

(** The unit a one-letter escape stands for. *)
Definition escape (e : code_unit) : option code_unit :=
  if e =? QUOTE then Some QUOTE
  else if e =? BACKSLASH then Some BACKSLASH
  else if e =? SLASH then Some SLASH
  else if e =? 98 then Some 8
  else if e =? 102 then Some 12
  else if e =? 110 then Some LF
  else if e =? 114 then Some CR
  else if e =? 116 then Some TAB
  else None.

Definition cons_fst {A B} (a : A) (r : option (list A * B)) : option (list A * B) :=
  match r with
  | Some (l, b) => Some (a :: l, b)
  | None => None
  end.

(** The characters of a string after its opening quote, up to and
    including the closing quote: the decoded string and what follows. *)
Fixpoint string_chars (s : jsstring) : option (jsstring * jsstring) :=
  match s with
  | [] => None
  | c :: s' =>
      if c =? QUOTE then Some ([], s')
      else if c =? BACKSLASH then
        match s' with
        | [] => None
        | e :: s'' =>
            if e =? 117 then
              match s'' with
              | h1 :: h2 :: h3 :: h4 :: s3 =>
                  match hex4 h1 h2 h3 h4 with
                  | Some u => cons_fst u (string_chars s3)
                  | None => None
                  end
              | _ => None
              end
            else
              match escape e with
              | Some u => cons_fst u (string_chars s'')
              | None => None
              end
        end
      else if c <? 32 then None
      else cons_fst c (string_chars s')
  end.

(** The longest run of decimal digits at the head of [s], as digit values. *)
Fixpoint take_digits (s : jsstring) : list N * jsstring :=
  match s with
  | c :: s' =>
      if is_digit c then let (ds, r) := take_digits s' in ((c - 48) :: ds, r)
      else ([], s)
  | [] => ([], [])
  end.

Definition decimal_value (ds : list N) : N :=
  fold_left (fun acc d => acc * 10 + d) ds 0.

(** The integer part: a lone 0, or a digit run that does not start with 0. *)
Definition int_part (s : jsstring) : option (list N * jsstring) :=
  match take_digits s with
  | ([], _) => None
  | (0 :: _, _) =>
      match s with
      | _ :: s' => Some ([0], s')
      | [] => None
      end
  | (ds, r) => Some (ds, r)
  end.

(** The optional fraction: a dot and at least one digit. *)
Definition frac_part (s : jsstring) : option (list N * jsstring) :=
  match s with
  | c :: s' =>
      if c =? DOT then
        match take_digits s' with
        | ([], _) => None
        | (ds, r) => Some (ds, r)
        end
      else Some ([], s)
  | [] => Some ([], [])
  end.

(** An optional sign before the digits of an exponent. *)
Definition sign_part (s : jsstring) : bool * jsstring :=
  match s with
  | g :: t => if g =? MINUS then (true, t)
              else if g =? PLUS then (false, t)
              else (false, s)
  | [] => (false, s)
  end.

Definition exp_digits (neg : bool) (s : jsstring) : option (Z * jsstring) :=
  match take_digits s with
  | ([], _) => None
  | (ds, r) =>
      let e := Z.of_N (decimal_value ds) in
      Some (if neg then (- e)%Z else e, r)
  end.

(** The optional exponent: e or E, an optional sign, at least one digit. *)
Definition exp_part (s : jsstring) : option (Z * jsstring) :=
  match s with
  | c :: s' =>
      if (c =? 101) || (c =? 69) then
        let (neg, s'') := sign_part s' in exp_digits neg s''
      else Some (0%Z, s)
  | [] => Some (0%Z, [])
  end.

(** A number after its optional minus sign. *)
Definition unsigned_number (neg : bool) (s1 : jsstring)
  : option (number * jsstring) :=
  match int_part s1 with
  | None => None
  | Some (ids, s2) =>
      match frac_part s2 with
      | None => None
      | Some (fds, s3) =>
          match exp_part s3 with
          | None => None
          | Some (e, s4) =>
              Some (mkNumber neg (decimal_value (ids ++ fds))
                             (e - Z.of_nat (List.length fds)), s4)
          end
      end
  end.

Definition parse_number (s : jsstring) : option (number * jsstring) :=
  match s with
  | c :: s' =>
      if c =? MINUS then unsigned_number true s' else unsigned_number false s
  | [] => None
  end.

(** What a sub-parser hands back: a value and the rest of the input, a
    syntax error, or (for the bounded recursion below) no fuel left. *)
Inductive outcome :=
| Parsed (v : JSON) (rest : jsstring)
| Syntax
| NoFuel.

Definition literal (word : string) (v : JSON) (s : jsstring) : outcome :=
  if startsWith (str word) s then Parsed v (skipn (String.length word) s)
  else Syntax.

(** Recursive descent.  [parse_value] reads one value after optional white
    space; [parse_elements] reads the elements of an array from the start
    of an element to the closing bracket; [parse_members] does the same
    for the members of an object.  The recursion is bounded by [fuel];
    [parse_fuel] below is always enough ([parse_value_fuel]). *)
Fixpoint parse_value (fuel : nat) (s : jsstring) : outcome :=
  match fuel with
  | O => NoFuel
  | S f =>
      match skip_ws s with
      | [] => Syntax
      | c :: s' =>
          if c =? LBRACE then
            match skip_ws s' with
            | [] => Syntax
            | c2 :: s2 =>
                if c2 =? RBRACE then Parsed (JObject []) s2
                else parse_members f [] (c2 :: s2)
            end
          else if c =? LBRACKET then
            match skip_ws s' with
            | [] => Syntax
            | c2 :: s2 =>
                if c2 =? RBRACKET then Parsed (JArray []) s2
                else parse_elements f [] (c2 :: s2)
            end
          else if c =? QUOTE then
            match string_chars s' with
            | Some (x, r) => Parsed (JString x) r
            | None => Syntax
            end
          else if c =? 116 then literal "true" (JBool true) (c :: s')
          else if c =? 102 then literal "false" (JBool false) (c :: s')
          else if c =? 110 then literal "null" JNull (c :: s')
          else
            match parse_number (c :: s') with
            | Some (n, r) => Parsed (JNumber n) r
            | None => Syntax
            end
      end
  end

with parse_elements (fuel : nat) (acc : list JSON) (s : jsstring) : outcome :=
  match fuel with
  | O => NoFuel
  | S f =>
      match parse_value f s with
      | Parsed v r =>
          match skip_ws r with
          | [] => Syntax
          | c :: r' =>
              if c =? COMMA then parse_elements f (acc ++ [v]) r'
              else if c =? RBRACKET then Parsed (JArray (acc ++ [v])) r'
              else Syntax
          end
      | Syntax => Syntax
      | NoFuel => NoFuel
      end
  end

with parse_members (fuel : nat) (acc : list (jsstring * JSON)) (s : jsstring)
  : outcome :=
  match fuel with
  | O => NoFuel
  | S f =>
      match skip_ws s with
      | [] => Syntax
      | q :: s1 =>
          if q =? QUOTE then
            match string_chars s1 with
            | None => Syntax
            | Some (k, s2) =>
                match skip_ws s2 with
                | [] => Syntax
                | c :: s3 =>
                    if c =? COLON then
                      match parse_value f s3 with
                      | Parsed v r =>
                          match skip_ws r with
                          | [] => Syntax
                          | d :: r' =>
                              if d =? COMMA then
                                parse_members f (set_prop k v acc) r'
                              else if d =? RBRACE then
                                Parsed (JObject (set_prop k v acc)) r'
                              else Syntax
                          end
                      | Syntax => Syntax
                      | NoFuel => NoFuel
                      end
                    else Syntax
                end
            end
          else Syntax
      end
  end.

Definition parse_fuel (s : jsstring) : nat := 2 * List.length s + 2.

(** The exceptions the program meets: the [Error]s it constructs itself
    and the [SyntaxError] of [JSON.parse].  Both carry a [message]. *)
Inductive exn :=
| Error (message : jsstring)
| SyntaxError (message : jsstring).

Definition message (e : exn) : jsstring :=
  match e with
  | Error m => m
  | SyntaxError m => m
  end.

(** The text of a [SyntaxError] differs between engines ("Unexpected token
    } in JSON at position 5", "JSON.parse: unexpected character ...", "JSON
    Parse error: ..."); every engine's text has the word JSON in it, which
    is all the program looks at.  The model keeps one text. *)
Definition syntax_error_message : jsstring := str "Unexpected token in JSON".

(** [JSON.parse(text)]: one value, white space around it, nothing else.
    (An engine's limit on the depth of nesting is not modelled.) *)
Definition parse (text : jsstring) : exn + JSON :=
  match parse_value (parse_fuel text) text with
  | Parsed v r =>
      match skip_ws r with
      | [] => inr v
      | _ :: _ => inl (SyntaxError syntax_error_message)
      end
  | Syntax | NoFuel => inl (SyntaxError syntax_error_message)
  end.

End Json.

Import Json.

(** ** Base64 and data URLs

    [FileReader.readAsDataURL] hands back the text
    [data:<type>;base64,<payload>], the payload being the file's bytes in
    the base64 alphabet of RFC 4648, padded with [=]. *)

Module Base64.

Import Strings.Byte.

Definition PAD : code_unit := 61.

(** The character of a six-bit value: A-Z, a-z, 0-9, plus, slash. *)
Definition alphabet (v : N) : code_unit :=
  if v <? 26 then 65 + v
  else if v <? 52 then 97 + (v - 26)
  else if v <? 62 then 48 + (v - 52)
  else if v =? 62 then PLUS
  else SLASH.

(** Three bytes as one 24-bit number, read six bits at a time. *)
Definition group (a b c : N) : N := a * 65536 + b * 256 + c.

Fixpoint encode (bs : list byte) : jsstring :=
  match bs with
  | [] => []
  | [a] =>
      let n := group (to_N a) 0 0 in
      [alphabet (n / 262144); alphabet (n / 4096 mod 64); PAD; PAD]
  | [a; b] =>
      let n := group (to_N a) (to_N b) 0 in
      [alphabet (n / 262144); alphabet (n / 4096 mod 64);
       alphabet (n / 64 mod 64); PAD]
  | a :: b :: c :: rest =>
      let n := group (to_N a) (to_N b) (to_N c) in
      alphabet (n / 262144) :: alphabet (n / 4096 mod 64) ::
      alphabet (n / 64 mod 64) :: alphabet (n mod 64) :: encode rest
  end.

Definition sextet (c : code_unit) : option N :=
  if (65 <=? c) && (c <=? 90) then Some (c - 65)
  else if (97 <=? c) && (c <=? 122) then Some (c - 97 + 26)
  else if (48 <=? c) && (c <=? 57) then Some (c - 48 + 52)
  else if c =? PLUS then Some 62
  else if c =? SLASH then Some 63
  else None.

Definition byte_of (n : N) : option byte := of_N (n mod 256).

Definition bytes_of (n : N) (count : nat) : option (list byte) :=
  match byte_of (n / 65536), byte_of (n / 256), byte_of n with
  | Some a, Some b, Some c => Some (firstn count [a; b; c])
  | _, _, _ => None
  end.

Definition quad (x y z w : N) : N := ((x * 64 + y) * 64 + z) * 64 + w.

(** Modelled from the spec: the "corresponding decode" of the round-trip
    law, which the repository does not contain (the payload is decoded by
    the remote service).  It is the decoder of RFC 4648: four characters
    give three bytes; padding is accepted in the last group only. *)
Fixpoint decode (s : jsstring) : option (list byte) :=
  match s with
  | [] => Some []
  | a :: b :: c :: d :: rest =>
      match sextet a, sextet b with
      | Some x, Some y =>
          if d =? PAD then
            match rest with
            | [] =>
                if c =? PAD then bytes_of (quad x y 0 0) 1
                else match sextet c with
                     | Some z => bytes_of (quad x y z 0) 2
                     | None => None
                     end
            | _ :: _ => None
            end
          else
            match sextet c, sextet d, decode rest with
            | Some z, Some w, Some tl =>
                option_map (fun l => l ++ tl) (bytes_of (quad x y z w) 3)
            | _, _, _ => None
            end
      | _, _ => None
      end
  | _ => None
  end.

End Base64.

(** ** The application *)

(** A [File] as the program sees it: its declared media type and its
    contents. *)
Record File := mkFile { type : jsstring; contents : list Init.Byte.byte }.

(** [reader.result] after a successful [readAsDataURL(file)].  (For an
    empty [type] browsers write application/octet-stream; the program only
    reads files whose type starts with image/.) *)
Definition readAsDataURL (file : File) : jsstring :=
  str "data:" ++ type file ++ str ";base64," ++ Base64.encode (contents file).

(** What the inference service does with one request: the call throws (or
    reading the response does), it resolves to a falsy result, or it
    yields the text of the reply. *)
Inductive reply :=
| Throws (error : exn)
| NoResult
| Text (responseText : jsstring).

(** The outside world of one upload: whether reading the file fails, and
    the service's reaction to a payload. *)
Record World := mkWorld {
  read_fails : File -> bool;
  generateContent : jsstring -> reply
}.

Definition invalid_file_type : jsstring :=
  str "Invalid file type. Please upload an image file.".
Definition failed_to_convert : jsstring :=
  str "Failed to convert image to base64".
Definition error_reading_file : jsstring := str "Error reading file".

(** [getImageData(file)]: the promise's settlement, [inl] for a rejection.
    When the read fails, [onerror] rejects first; the later [onloadend]
    (whose [reader.result] is [null]) cannot settle the promise again. *)
Definition getImageData (w : World) (file : option File) : exn + jsstring :=
  match file with
  | None => inl (Error invalid_file_type)
  | Some f =>
      if negb (startsWith (str "image/") (type f)) then
        inl (Error invalid_file_type)
      else if read_fails w f then inl (Error error_reading_file)
      else
        match nth_error (split COMMA (readAsDataURL f)) 1 with
        | None => inl (Error failed_to_convert)
        | Some base64Data =>
            if JsString.truthy base64Data then inr base64Data
            else inl (Error failed_to_convert)
        end
  end.

Definition no_samosa_detected : jsstring :=
  str "No samosa detected in the image. Please upload a clear image of a samosa.".
Definition could_not_get_analysis : jsstring :=
  str "Could not get a proper analysis. Please try with a clearer image of a samosa.".
Definition invalid_analysis_format : jsstring :=
  str "Invalid analysis format. Please try again with a different image.".
Definition could_not_analyze : jsstring :=
  str "Could not analyze the image properly. Please try with a different image.".

(** The test of lines 49-50. *)
Definition is_refusal (responseText : jsstring) : bool :=
  includes (str "sorry") (toLowerCase responseText) ||
  includes (str "unable to") (toLowerCase responseText).

(** The test of line 64. *)
Definition bad_shape (analysisData : JSON) : bool :=
  negb (truthy analysisData) ||
  negb (truthy_opt (get analysisData (str "score"))) ||
  negb (truthy_opt (get analysisData (str "corners"))).

(** The [try] block of [processGeminiResponse], lines 47-68. *)
Definition try_block (responseText : jsstring) : exn + JSON :=
  if is_refusal responseText then inl (Error no_samosa_detected)
  else
    match Regex.jsonRegex_match responseText with
    | None => inl (Error could_not_get_analysis)
    | Some jsonMatch0 =>
        match Json.parse jsonMatch0 with
        | inl syntax_error => inl syntax_error
        | inr analysisData =>
            if bad_shape analysisData then inl (Error invalid_analysis_format)
            else inr analysisData
        end
    end.

(** The [catch] block, lines 69-74. *)
Definition catch_block (error : exn) : exn + JSON :=
  if includes (str "JSON") (message error) then inl (Error could_not_analyze)
  else inl error.

Definition processGeminiResponse (responseText : jsstring) : exn + JSON :=
  match try_block responseText with
  | inl error => catch_block error
  | inr analysisData => inr analysisData
  end.

(** The component's state, lines 39-43. *)
Inductive Step := upload | analyzing | result.

Record State := mkState {
  image : option File;
  step : Step;
  currentMessageIndex : nat;
  score : option JSON;
  analysis : option JSON
}.

Definition initial : State := mkState None upload 0 None None.

Definition setImage (x : option File) (st : State) : State :=
  mkState x (step st) (currentMessageIndex st) (score st) (analysis st).
Definition setStep (x : Step) (st : State) : State :=
  mkState (image st) x (currentMessageIndex st) (score st) (analysis st).
Definition setCurrentMessageIndex (x : nat) (st : State) : State :=
  mkState (image st) (step st) x (score st) (analysis st).
Definition setScore (x : option JSON) (st : State) : State :=
  mkState (image st) (step st) (currentMessageIndex st) x (analysis st).
Definition setAnalysis (x : option JSON) (st : State) : State :=
  mkState (image st) (step st) (currentMessageIndex st) (score st) x.

(** What the handlers do to the outside: a request to the service, an
    alert shown to the user. *)
Inductive effect :=
| Request (imageData : jsstring)
| Alert (text : jsstring).

Definition no_response : jsstring := str "No response from Gemini API".
Definition error_processing_image : jsstring :=
  str "Error processing image. Please try again with a different image.".

(** [analyzeImage(imageData)], lines 78-128: the request goes out, then
    the reply is validated and, when valid, stored.  The [catch] logs and
    rethrows. *)
Definition analyzeImage (w : World) (imageData : jsstring) (st : State)
  : (exn + JSON) * State * list effect :=
  match generateContent w imageData with
  | Throws error => (inl error, st, [Request imageData])
  | NoResult => (inl (Error no_response), st, [Request imageData])
  | Text responseText =>
      match processGeminiResponse responseText with
      | inl error => (inl error, st, [Request imageData])
      | inr analysisData =>
          (inr analysisData,
           setAnalysis (Some analysisData)
             (setScore (get analysisData (str "score")) st),
           [Request imageData])
      end
  end.

(** [onImageChange] up to its first [await], lines 145-149: the state the
    component shows while the upload is being processed. *)
Definition onImageChange_start (f : File) (st : State) : State :=
  setAnalysis None
    (setScore None
       (setCurrentMessageIndex 0 (setStep analyzing (setImage (Some f) st)))).

(** [error.message || "Error processing image. ..."] *)
Definition alert_text (error : exn) : jsstring :=
  if JsString.truthy (message error) then message error
  else error_processing_image.

(** [onImageChange(e)] run to completion, lines 142-161, for
    [e.target.files[0] = file]: the final state and the effects in order. *)
Definition onImageChange (w : World) (file : option File) (st : State)
  : State * list effect :=
  match file with
  | None => (st, [])
  | Some f =>
      let st1 := onImageChange_start f st in
      match getImageData w (Some f) with
      | inl error => (setStep upload st1, [Alert (alert_text error)])
      | inr imageData =>
          match analyzeImage w imageData st1 with
          | (inl error, st2, effects) =>
              (setStep upload st2, effects ++ [Alert (alert_text error)])
          | (inr _, st2, effects) => (setStep result st2, effects)
          end
      end
  end.

(** The "Analyze Another Samosa" button, line 227. *)
Definition analyzeAnother (st : State) : State := setStep upload st.

(** *** The error classes of the specification

    The program throws plain [Error]s and tells them apart by message
    only.  The specification names five classes; this is the message each
    stands for. *)
Inductive ErrorClass :=
| InvalidInputError
| EncodingError
| NoSubjectDetectedError
| NoStructuredPayloadError
| InvalidAnalysisShapeError
| GenericFailure.

Definition error_class (e : exn) : ErrorClass :=
  let m := message e in
  if JsString.eqb m invalid_file_type then InvalidInputError
  else if JsString.eqb m failed_to_convert || JsString.eqb m error_reading_file
          || startsWith (str "Error processing image: ") m
  then EncodingError
  else if JsString.eqb m no_samosa_detected then NoSubjectDetectedError
  else if JsString.eqb m could_not_get_analysis || JsString.eqb m could_not_analyze
  then NoStructuredPayloadError
  else if JsString.eqb m invalid_analysis_format then InvalidAnalysisShapeError
  else GenericFailure.

(** ** Examples

    The inputs the statements below are tried on. *)

(** The replies used as examples. *)
Definition reply_good : jsstring :=
  qstr "Here you go: {'score': 85, 'corners': [{'name':'Top','angle':60,'comment':'Crispy'}]}".
Definition reply_refusal_with_json : jsstring :=
  qstr "Sorry, I am unable to identify a samosa {'score': 85, 'corners': [{'name':'Top','angle':60,'comment':'Crispy'}]}".
Definition reply_prose : jsstring :=
  str "I see a triangular pastry but cannot quantify it.".
Definition reply_malformed : jsstring := qstr "{'score': 85, 'corners': [}".
Definition reply_no_score : jsstring :=
  qstr "{'corners': [{'name':'Top','angle':60,'comment':'Crispy'}]}".
Definition reply_empty_corners : jsstring := qstr "{'score': 85, 'corners': []}".
Definition reply_zero_score : jsstring :=
  qstr "{'score': 0, 'corners': [{'name':'Top','angle':60,'comment':'Crispy'}]}".

Definition corner_top : JSON :=
  JObject [(str "name", JString (str "Top")); (str "angle", JInt 60);
           (str "comment", JString (str "Crispy"))].

(** "The corners sequence of the returned record is non-empty". *)
Definition has_corner (v : JSON) : Prop :=
  exists c cs, get v (str "corners") = Some (JArray (c :: cs)).

(** A world in which reading succeeds and the service answers [t]. *)
Definition example_world (t : jsstring) : World :=
  mkWorld (fun _ => false) (fun _ => Text t).

(** The first four bytes of a PNG file, declared as one. *)
Definition png : File :=
  mkFile (str "image/png") [Init.Byte.x89; Init.Byte.x50; Init.Byte.x4e; Init.Byte.x47].

Definition notes : File :=
  mkFile (str "text/plain") [Init.Byte.x68; Init.Byte.x69].

(** The session after a successful upload of [png] answered by
    [reply_good]. *)
Definition session_with_result : State :=
  fst (onImageChange (example_world reply_good) (Some png) initial).

(** ** The progress captions and their timer, lines 7-11 and 131-139 *)

Definition messages : list jsstring :=
  [str "Analyzing samosa geometry...";
   str "Evaluating crispiness patterns...";
   str "Consulting with AI food experts..."].

(** The interval's callback, line 134. *)
Definition tick (st : State) : State :=
  setCurrentMessageIndex
    (Nat.modulo (currentMessageIndex st + 1) (List.length messages)) st.

(** The browser's intervals and what React keeps of the effect: the ids
    of the live intervals, the next id [setInterval] hands out, and the
    id the cleanup function of the last effect run closes over ([None]
    when that run returned nothing). *)
Record Timers := mkTimers {
  live : list nat;
  next_id : nat;
  cleanup : option nat
}.

Definition clearInterval (id : nat) (tm : Timers) : Timers :=
  mkTimers (filter (fun i => negb (Nat.eqb i id)) (live tm)) (next_id tm)
           (cleanup tm).

(** The cleanup of the previous run, line 137, if it returned one. *)
Definition run_cleanup (tm : Timers) : Timers :=
  match cleanup tm with
  | Some id => mkTimers (live (clearInterval id tm)) (next_id tm) None
  | None => tm
  end.

(** The effect's body, lines 132-138, for the step just rendered. *)
Definition run_effect (s : Step) (tm : Timers) : Timers :=
  match s with
  | analyzing =>
      mkTimers (live tm ++ [next_id tm]) (S (next_id tm)) (Some (next_id tm))
  | _ => mkTimers (live tm) (next_id tm) None
  end.

Definition Step_eqb (a b : Step) : bool :=
  match a, b with
  | upload, upload | analyzing, analyzing | result, result => true
  | _, _ => false
  end.

(** [useEffect(..., [step])] after a render: when [step] differs from the
    step of the previous render, the old cleanup runs and then the effect.
    A render and its effects are taken as one step: no callback of the
    interval runs in between. *)
Definition after_render (old new : Step) (tm : Timers) : Timers :=
  if Step_eqb old new then tm else run_effect new (run_cleanup tm).

(** ** The view, lines 163-235

    What the component returns for a state, or [None] when rendering
    throws.  The heading and the tag line, which are always there, are
    left out. *)

(** The text nodes React makes of a value used as a child: [null] and
    booleans render nothing, numbers and strings render as text, an array
    renders its elements in order, and a plain object is an error
    ("Objects are not valid as a React child"). *)
Fixpoint children (v : JSON) : option (list JSON) :=
  match v with
  | JNull | JBool _ => Some []
  | JNumber _ | JString _ => Some [v]
  | JArray l =>
      (fix each (l : list JSON) : option (list JSON) :=
         match l with
         | [] => Some []
         | x :: l' =>
             match children x, each l' with
             | Some a, Some b => Some (a ++ b)
             | _, _ => None
             end
         end) l
  | JObject _ => None
  end.

(** The same for a value that may be [undefined], which renders nothing. *)
Definition children_opt (v : option JSON) : option (list JSON) :=
  match v with
  | Some v' => children v'
  | None => Some []
  end.

(** One [<li>], lines 211-219. *)
Record CornerLine := mkLine {
  line_name : list JSON;
  line_angle : list JSON;
  line_comment : list JSON
}.

(** The callback of [corners.map], lines 210-220: the parameter pattern
    [{ name, angle, comment }] throws on [null]; on any other element it
    reads the three properties, [undefined] when they are missing. *)
Definition corner_line (c : JSON) : option CornerLine :=
  match c with
  | JNull => None
  | _ =>
      match children_opt (get c (str "name")),
            children_opt (get c (str "angle")),
            children_opt (get c (str "comment")) with
      | Some n, Some a, Some m => Some (mkLine n a m)
      | _, _, _ => None
      end
  end.

Fixpoint corner_lines (cs : list JSON) : option (list CornerLine) :=
  match cs with
  | [] => Some []
  | c :: cs' =>
      match corner_line c, corner_lines cs' with
      | Some l, Some ls => Some (l :: ls)
      | _, _ => None
      end
  end.

(** The results panel, lines 205-232: the lines, the score, the button. *)
Record Panel := mkPanel {
  lines : list CornerLine;
  score_text : list JSON
}.

(** [analysis.corners.map(...)]: only an array has [map]; on anything
    else the call throws. *)
Definition results_panel (st : State) (a : JSON) : option Panel :=
  match get a (str "corners") with
  | Some (JArray cs) =>
      match corner_lines cs, children_opt (score st) with
      | Some ls, Some sc => Some (mkPanel ls sc)
      | _, _ => None
      end
  | _ => None
  end.

Record View := mkView {
  upload_control : bool;
  img : option File;
  caption : option jsstring;
  results : option Panel
}.

Definition render (st : State) : option View :=
  let control := Step_eqb (step st) upload in
  let picture :=
    if Step_eqb (step st) analyzing || Step_eqb (step st) result
    then image st else None in
  let text :=
    if Step_eqb (step st) analyzing
    then nth_error messages (currentMessageIndex st) else None in
  if Step_eqb (step st) result && truthy_opt (analysis st) then
    match analysis st with
    | Some a =>
        match results_panel st a with
        | Some p => Some (mkView control picture text (Some p))
        | None => None
        end
    | None => Some (mkView control picture text None)
    end
  else Some (mkView control picture text None).

(** ** The session, event by event

    [onImageChange] is asynchronous: between its first lines and its
    completion the interval may fire.  A session is the component's state
    together with the upload in flight, the timers and the effects so
    far. *)

(** The rest of [onImageChange] after lines 145-149: lines 151-159, run on
    the state at the time the awaited calls complete. *)
Definition onImageChange_resume (w : World) (f : File) (st1 : State)
  : State * list effect :=
  match getImageData w (Some f) with
  | inl error => (setStep upload st1, [Alert (alert_text error)])
  | inr imageData =>
      match analyzeImage w imageData st1 with
      | (inl error, st2, effects) =>
          (setStep upload st2, effects ++ [Alert (alert_text error)])
      | (inr _, st2, effects) => (setStep result st2, effects)
      end
  end.

Record Session := mkSession {
  state : State;
  pending : option File;
  timers : Timers;
  mounted : bool;
  log : list effect
}.

(** The component after its first render: the effect has run once. *)
Definition initial_session : Session :=
  mkSession initial None (run_effect upload (mkTimers [] 0 None)) true [].

(** A state update followed by the render it causes.  When rendering
    throws, React unmounts the component, which runs the cleanup. *)
Definition update (st' : State) (s : Session) : Session :=
  match render st' with
  | Some _ =>
      mkSession st' (pending s)
                (after_render (step (state s)) (step st') (timers s))
                true (log s)
  | None =>
      mkSession st' (pending s) (run_cleanup (timers s)) false (log s)
  end.

Inductive event :=
| Select (file : option File)
| Tick
| Settle (w : World)
| AnalyzeAnother.

(** What is on screen: nothing once the component is unmounted. *)
Definition view (s : Session) : option View :=
  if mounted s then render (state s) else None.

(** One event, [None] when it cannot happen: a file can be selected only
    through the upload control, the button pressed only in the results
    panel, the interval fire only while live, and an upload complete only
    when one is in flight. *)
Definition fire (e : event) (s : Session) : option Session :=
  match e with
  | Select file =>
      match view s with
      | Some v =>
          if upload_control v then
            match file with
            | None => Some s
            | Some f =>
                Some (update (onImageChange_start f (state s))
                        (mkSession (state s) (Some f) (timers s) (mounted s)
                                   (log s)))
            end
          else None
      | None => None
      end
  | Tick =>
      match live (timers s) with
      | [] => None
      | _ :: _ => Some (update (tick (state s)) s)
      end
  | Settle w =>
      match pending s with
      | Some f =>
          let (st', effects) := onImageChange_resume w f (state s) in
          Some (update st'
                  (mkSession (state s) None (timers s) (mounted s)
                             (log s ++ effects)))
      | None => None
      end
  | AnalyzeAnother =>
      match view s with
      | Some v =>
          match results v with
          | Some _ => Some (update (analyzeAnother (state s)) s)
          | None => None
          end
      | None => None
      end
  end.

Fixpoint run (es : list event) (s : Session) : option Session :=
  match es with
  | [] => Some s
  | e :: es' =>
      match fire e s with
      | Some s' => run es' s'
      | None => None
      end
  end.

(** The payloads of the requests among some effects, and the alerts. *)
Definition requests (effects : list effect) : list jsstring :=
  flat_map (fun e => match e with Request d => [d] | Alert _ => [] end) effects.

Definition alerts (effects : list effect) : list jsstring :=
  flat_map (fun e => match e with Alert t => [t] | Request _ => [] end) effects.

(** The sessions that some sequence of events leads to. *)
Definition reachable (s : Session) : Prop :=
  exists es, run es initial_session = Some s.

(** What every session reached from the first render satisfies. *)
Definition Inv (s : Session) : Prop :=
  (currentMessageIndex (state s) < 3)%nat /\
  if mounted s then
    match step (state s) with
    | upload =>
        pending s = None /\ live (timers s) = [] /\ cleanup (timers s) = None
    | analyzing =>
        exists f id,
          pending s = Some f /\ image (state s) = Some f /\
          score (state s) = None /\ analysis (state s) = None /\
          live (timers s) = [id] /\ cleanup (timers s) = Some id
    | result =>
        pending s = None /\ live (timers s) = [] /\ cleanup (timers s) = None /\
        exists a, analysis (state s) = Some a /\
                  score (state s) = get a (str "score") /\
                  bad_shape a = false /\ image (state s) <> None
    end
  else
    step (state s) = result /\ pending s = None /\ live (timers s) = [] /\
    exists a, analysis (state s) = Some a /\
              score (state s) = get a (str "score") /\ bad_shape a = false /\
              results_panel (state s) a = None.

(** The session while an upload is in flight, after [n] ticks. *)
Definition in_flight (f : File) (n : nat) (s : Session) : Session :=
  mkSession (Nat.iter n tick (onImageChange_start f (state s))) (Some f)
            (mkTimers [next_id (timers s)] (S (next_id (timers s)))
                      (Some (next_id (timers s))))
            true (log s).

(** A value that renders as itself: a number or a string; a missing one
    renders nothing. *)
Definition plain (o : option JSON) : bool :=
  match o with
  | Some (JNumber _) | Some (JString _) | None => true
  | _ => false
  end.

Definition shown (o : option JSON) : list JSON :=
  match o with
  | Some v => [v]
  | None => []
  end.

(** Further example replies. *)
Definition reply_corners_text : jsstring :=
  qstr "{'score': 85, 'corners': 'none visible'}".
Definition reply_two_objects : jsstring :=
  qstr "{'score': 85, 'corners': []} or maybe {'score': 90, 'corners': []}".

(** An empty file declared as a PNG image. *)
Definition empty_png : File := mkFile (str "image/png") [].

(** * Properties of the built-ins *)

(** ** Strings *)

Module JsStringFacts.

Lemma eqb_eq a : forall b, eqb a b = true <-> a = b.
Proof.
  induction a as [|x a IH]; intros [|y b]; simpl; split; try congruence; auto.
  - intros H. apply andb_true_iff in H as [H1 H2].
    apply N.eqb_eq in H1. apply IH in H2. congruence.
  - intros H. injection H as -> ->. rewrite N.eqb_refl. simpl. now apply IH.
Qed.

Lemma eqb_refl a : eqb a a = true.
Proof. now apply eqb_eq. Qed.

Lemma startsWith_app p : forall s, startsWith p s = true <-> exists t, s = p ++ t.
Proof.
  induction p as [|x p IH]; intros s; simpl.
  - split; eauto.
  - destruct s as [|y s].
    + split; [discriminate | intros [t H]; discriminate].
    + rewrite andb_true_iff, N.eqb_eq, IH. split.
      * intros [-> [t ->]]. eauto.
      * intros [t H]. injection H as -> ->. eauto.
Qed.

Lemma includes_app p : forall s,
  includes p s = true <-> exists a b, s = a ++ p ++ b.
Proof.
  induction s as [|y s IH].
  - cbn [includes]. rewrite orb_false_r, startsWith_app. split.
    + intros [t H]. exists [], t. exact H.
    + intros [a [b H]]. destruct a; [eauto | discriminate].
  - cbn [includes]. rewrite orb_true_iff, startsWith_app, IH. split.
    + intros [[t H] | [a [b H]]].
      * exists [], t. exact H.
      * exists (y :: a), b. simpl. now rewrite H.
    + intros [[|z a] [b H]].
      * left. eauto.
      * right. simpl in H. injection H as -> ->. eauto.
Qed.

End JsStringFacts.

(** ** The regular expression *)

Module RegexFacts.

Import Regex.

Lemma any_star_rbrace_None s :
  any_star_rbrace s = None <-> ~ In RBRACE s.
Proof.
  induction s as [|c s IH]; simpl.
  - tauto.
  - destruct (any_star_rbrace s) as [m|].
    + split; [discriminate|]. intros H. exfalso.
      assert (In RBRACE s -> False) by tauto.
      destruct IH as [_ IH]. discriminate IH. tauto.
    + destruct (N.eqb_spec c RBRACE) as [->|Hc].
      * split; [discriminate | tauto].
      * split; [|reflexivity]. intros _ [H|H]; [congruence|].
        now apply IH.
Qed.

Lemma any_star_rbrace_Some s : forall m,
  any_star_rbrace s = Some m ->
  exists body post, m = body ++ [RBRACE] /\ s = m ++ post /\ ~ In RBRACE post.
Proof.
  induction s as [|c s IH]; simpl; intros m H; [discriminate|].
  destruct (any_star_rbrace s) as [m'|] eqn:E.
  - injection H as <-. destruct (IH _ eq_refl) as (body & post & -> & -> & Hp).
    exists (c :: body), post. simpl. now rewrite <- !app_assoc.
  - destruct (N.eqb_spec c RBRACE) as [->|Hc]; [|discriminate].
    injection H as <-. exists [], s. repeat split.
    now apply any_star_rbrace_None.
Qed.

(** A match runs from the first [{] of the text to its last [}]. *)
Lemma jsonRegex_match_Some s : forall m,
  jsonRegex_match s = Some m ->
  exists pre body post,
    s = pre ++ m ++ post /\ m = LBRACE :: body ++ [RBRACE] /\
    ~ In LBRACE pre /\ ~ In RBRACE post.
Proof.
  induction s as [|c s IH]; intros m; [discriminate|].
  cbn [jsonRegex_match match_here].
  destruct (N.eqb_spec c LBRACE) as [->|Hc].
  - destruct (any_star_rbrace s) as [m'|] eqn:E; cbn [option_map].
    + intros H. injection H as <-.
      destruct (any_star_rbrace_Some _ _ E) as (body & post & -> & -> & Hp).
      exists [], body, post. simpl. rewrite <- !app_assoc. auto.
    + intros H. destruct (IH _ H) as (pre & body & post & -> & -> & _ & Hp).
      exfalso. apply any_star_rbrace_None in E. apply E.
      rewrite !in_app_iff. right. left. simpl. rewrite in_app_iff.
      right. right. now left.
  - intros H. destruct (IH _ H) as (pre & body & post & -> & -> & Hpre & Hp).
    exists (c :: pre), body, post. simpl. repeat split; auto.
    intros [H1|H1]; [congruence | auto].
Qed.

(** There is no match exactly when no [{] is followed by a [}]. *)
Lemma jsonRegex_match_None s :
  jsonRegex_match s = None <-> ~ braced_span s.
Proof.
  split.
  - induction s as [|c s IH]; intros H (a & b & d & E).
    + destruct a; discriminate.
    + cbn [jsonRegex_match match_here] in H.
      destruct a as [|x a]; simpl in E; injection E as E1 E2; subst c s.
      * rewrite N.eqb_refl in H.
        destruct (any_star_rbrace (b ++ RBRACE :: d)) eqn:F; [discriminate|].
        apply any_star_rbrace_None in F. apply F.
        rewrite in_app_iff. right. now left.
      * apply IH; [|now exists a, b, d].
        destruct (x =? LBRACE); [|exact H].
        destruct (any_star_rbrace _); [discriminate | exact H].
  - intros H. destruct (jsonRegex_match s) as [m|] eqn:E; [|reflexivity].
    exfalso. apply H.
    destruct (jsonRegex_match_Some _ _ E) as (pre & body & post & -> & -> & _).
    exists pre, body, post. simpl. now rewrite <- app_assoc.
Qed.

End RegexFacts.

(** ** The parser *)

Module JsonFacts.

Import JsStringFacts.

Lemma skip_ws_length s : (List.length (skip_ws s) <= List.length s)%nat.
Proof.
  induction s as [|c s IH]; simpl; [lia|].
  destruct (is_ws c); simpl; lia.
Qed.

Lemma skip_ws_cons s c r : skip_ws s = c :: r -> (List.length r < List.length s)%nat.
Proof.
  intros H. pose proof (skip_ws_length s) as L. rewrite H in L. simpl in L. lia.
Qed.

Lemma cons_fst_Some {A B} (a : A) (o : option (list A * B)) l b :
  cons_fst a o = Some (l, b) -> exists l', o = Some (l', b).
Proof.
  destruct o as [[l' b']|]; simpl; [|discriminate].
  intros H. injection H as _ ->. eauto.
Qed.

Lemma string_chars_length s : forall x r,
  string_chars s = Some (x, r) -> (List.length r < List.length s)%nat.
Proof.
  induction s as [s IH] using (well_founded_induction
    (Wf_nat.well_founded_ltof _ (@List.length code_unit))).
  unfold Wf_nat.ltof in IH.
  intros x r. destruct s as [|c s]; simpl; [discriminate|].
  destruct (c =? QUOTE).
  { intros H. injection H as _ ->. lia. }
  destruct (c =? BACKSLASH).
  - destruct s as [|e s]; [discriminate|].
    destruct (e =? 117).
    + destruct s as [|h1 [|h2 [|h3 [|h4 s]]]]; try discriminate.
      destruct (hex4 h1 h2 h3 h4); [|discriminate].
      intros H. apply cons_fst_Some in H as [l' H].
      apply IH in H; simpl in *; lia.
    + destruct (escape e); [|discriminate].
      intros H. apply cons_fst_Some in H as [l' H].
      apply IH in H; simpl in *; lia.
  - destruct (c <? 32); [discriminate|].
    intros H. apply cons_fst_Some in H as [l' H].
    apply IH in H; simpl in *; lia.
Qed.

Lemma take_digits_length s :
  (List.length (snd (take_digits s)) + List.length (fst (take_digits s)) = List.length s)%nat.
Proof.
  induction s as [|c s IH]; simpl; [lia|].
  destruct (is_digit c); simpl; [|lia].
  destruct (take_digits s); simpl in *. lia.
Qed.

Lemma take_digits_rest s ds r :
  take_digits s = (ds, r) -> (List.length r + List.length ds = List.length s)%nat.
Proof. intros H. pose proof (take_digits_length s). now rewrite H in *. Qed.

Lemma int_part_length s ds r :
  int_part s = Some (ds, r) -> (List.length r < List.length s)%nat.
Proof.
  unfold int_part. destruct (take_digits s) as [l r'] eqn:E.
  apply take_digits_rest in E.
  destruct l as [|d l]; [discriminate|].
  destruct d.
  - destruct s; [discriminate|]. intros H. injection H as _ <-. simpl. lia.
  - intros H. injection H as _ <-. simpl in E. lia.
Qed.

Lemma frac_part_length s ds r :
  frac_part s = Some (ds, r) -> (List.length r <= List.length s)%nat.
Proof.
  unfold frac_part. destruct s as [|c s].
  - intros H. injection H as _ <-. lia.
  - destruct (c =? DOT).
    + destruct (take_digits s) as [l r'] eqn:E. apply take_digits_rest in E.
      destruct l; [discriminate|]. intros H. injection H as _ <-. simpl. lia.
    + intros H. injection H as _ <-. lia.
Qed.

Lemma sign_part_length s : (List.length (snd (sign_part s)) <= List.length s)%nat.
Proof.
  destruct s as [|g t]; simpl; [lia|].
  destruct (g =? MINUS); [simpl; lia|]. destruct (g =? PLUS); simpl; lia.
Qed.

Lemma exp_digits_length neg s e r :
  exp_digits neg s = Some (e, r) -> (List.length r <= List.length s)%nat.
Proof.
  unfold exp_digits. destruct (take_digits s) as [l r'] eqn:E.
  apply take_digits_rest in E. destruct l; [discriminate|].
  intros H. injection H as _ <-. lia.
Qed.

Lemma exp_part_length s e r :
  exp_part s = Some (e, r) -> (List.length r <= List.length s)%nat.
Proof.
  unfold exp_part. destruct s as [|c s].
  - intros H. injection H as _ <-. lia.
  - destruct ((c =? 101) || (c =? 69)).
    + pose proof (sign_part_length s) as L.
      destruct (sign_part s) as [neg s'']. intros H.
      apply exp_digits_length in H. simpl in *. lia.
    + intros H. injection H as _ <-. lia.
Qed.

Lemma unsigned_number_length neg s n r :
  unsigned_number neg s = Some (n, r) -> (List.length r < List.length s)%nat.
Proof.
  unfold unsigned_number.
  destruct (int_part s) as [[ids s2]|] eqn:E1; [|discriminate].
  destruct (frac_part s2) as [[fds s3]|] eqn:E2; [|discriminate].
  destruct (exp_part s3) as [[e s4]|] eqn:E3; [|discriminate].
  intros H. injection H as _ <-.
  apply int_part_length in E1. apply frac_part_length in E2.
  apply exp_part_length in E3. lia.
Qed.

Lemma parse_number_length s n r :
  parse_number s = Some (n, r) -> (List.length r < List.length s)%nat.
Proof.
  unfold parse_number. destruct s as [|c s']; [discriminate|].
  destruct (c =? MINUS); intros H; apply unsigned_number_length in H;
    simpl in *; lia.
Qed.

Lemma literal_length word v s w r :
  word <> EmptyString ->
  literal word v s = Parsed w r -> (List.length r < List.length s)%nat.
Proof.
  unfold literal. intros Hw. destruct (startsWith (str word) s) eqn:E; [|discriminate].
  intros H. injection H as _ <-.
  apply startsWith_app in E as [t ->].
  assert (List.length (str word) = String.length word) as L.
  { clear. induction word; simpl; congruence. }
  rewrite <- L, skipn_app, skipn_all, Nat.sub_diag. simpl.
  rewrite length_app. destruct word; [congruence|]. simpl. lia.
Qed.

(** Every sub-parser that succeeds has consumed at least one code unit. *)
Lemma parse_length fuel :
  (forall s v r, parse_value fuel s = Parsed v r -> (List.length r < List.length s)%nat) /\
  (forall acc s v r, parse_elements fuel acc s = Parsed v r -> (List.length r < List.length s)%nat) /\
  (forall acc s v r, parse_members fuel acc s = Parsed v r -> (List.length r < List.length s)%nat).
Proof.
  induction fuel as [|f (IHv & IHe & IHm)]; [repeat split; discriminate|].
  repeat split.
  - intros s v r. cbn [parse_value].
    destruct (skip_ws s) as [|c s'] eqn:E; [discriminate|].
    apply skip_ws_cons in E.
    destruct (c =? LBRACE).
    { destruct (skip_ws s') as [|c2 s2] eqn:E2; [discriminate|].
      pose proof (skip_ws_length s') as L. rewrite E2 in L.
      destruct (c2 =? RBRACE).
      - intros H. injection H as _ <-. simpl in L. lia.
      - intros H. apply IHm in H. lia. }
    destruct (c =? LBRACKET).
    { destruct (skip_ws s') as [|c2 s2] eqn:E2; [discriminate|].
      pose proof (skip_ws_length s') as L. rewrite E2 in L.
      destruct (c2 =? RBRACKET).
      - intros H. injection H as _ <-. simpl in L. lia.
      - intros H. apply IHe in H. lia. }
    destruct (c =? QUOTE).
    { destruct (string_chars s') as [[x r']|] eqn:E2; [|discriminate].
      intros H. injection H as _ <-. apply string_chars_length in E2. lia. }
    destruct (c =? 116).
    { intros H. apply literal_length in H; [simpl in H; lia | discriminate]. }
    destruct (c =? 102).
    { intros H. apply literal_length in H; [simpl in H; lia | discriminate]. }
    destruct (c =? 110).
    { intros H. apply literal_length in H; [simpl in H; lia | discriminate]. }
    destruct (parse_number (c :: s')) as [[n r']|] eqn:E2; [|discriminate].
    intros H. injection H as _ <-. apply parse_number_length in E2.
    simpl in E2. lia.
  - intros acc s v r. cbn [parse_elements].
    destruct (parse_value f s) as [v' r'| |] eqn:E; try discriminate.
    apply IHv in E.
    destruct (skip_ws r') as [|c r2] eqn:E2; [discriminate|].
    apply skip_ws_cons in E2.
    destruct (c =? COMMA).
    { intros H. apply IHe in H. lia. }
    destruct (c =? RBRACKET); [|discriminate].
    intros H. injection H as _ <-. lia.
  - intros acc s v r. cbn [parse_members].
    destruct (skip_ws s) as [|q s1] eqn:E; [discriminate|].
    apply skip_ws_cons in E.
    destruct (q =? QUOTE); [|discriminate].
    destruct (string_chars s1) as [[k s2]|] eqn:E1; [|discriminate].
    apply string_chars_length in E1.
    destruct (skip_ws s2) as [|c s3] eqn:E2; [discriminate|].
    apply skip_ws_cons in E2.
    destruct (c =? COLON); [|discriminate].
    destruct (parse_value f s3) as [v' r'| |] eqn:E3; try discriminate.
    apply IHv in E3.
    destruct (skip_ws r') as [|d r2] eqn:E4; [discriminate|].
    apply skip_ws_cons in E4.
    destruct (d =? COMMA).
    { intros H. apply IHm in H. lia. }
    destruct (d =? RBRACE); [|discriminate].
    intros H. injection H as _ <-. lia.
Qed.

Lemma literal_fuel word v s : literal word v s <> NoFuel.
Proof. unfold literal. destruct (startsWith _ _); discriminate. Qed.

(** With twice the length of the input (and a little) as fuel, no
    sub-parser runs dry. *)
Lemma parse_fuel_enough fuel :
  (forall s, (2 * List.length s + 1 <= fuel)%nat -> parse_value fuel s <> NoFuel) /\
  (forall acc s, (2 * List.length s + 2 <= fuel)%nat ->
     parse_elements fuel acc s <> NoFuel) /\
  (forall acc s, (2 * List.length s + 2 <= fuel)%nat ->
     parse_members fuel acc s <> NoFuel).
Proof.
  induction fuel as [|f (IHv & IHe & IHm)]; [repeat split; intros; lia|].
  repeat split.
  - intros s L. cbn [parse_value].
    destruct (skip_ws s) as [|c s'] eqn:E; [discriminate|].
    apply skip_ws_cons in E.
    destruct (c =? LBRACE).
    { destruct (skip_ws s') as [|c2 s2] eqn:E2; [discriminate|].
      pose proof (skip_ws_length s') as L2. rewrite E2 in L2.
      destruct (c2 =? RBRACE); [discriminate|]. apply IHm. lia. }
    destruct (c =? LBRACKET).
    { destruct (skip_ws s') as [|c2 s2] eqn:E2; [discriminate|].
      pose proof (skip_ws_length s') as L2. rewrite E2 in L2.
      destruct (c2 =? RBRACKET); [discriminate|]. apply IHe. lia. }
    destruct (c =? QUOTE).
    { destruct (string_chars s') as [[x r']|]; discriminate. }
    destruct (c =? 116); [apply literal_fuel|].
    destruct (c =? 102); [apply literal_fuel|].
    destruct (c =? 110); [apply literal_fuel|].
    destruct (parse_number (c :: s')) as [[n r']|]; discriminate.
  - intros acc s L. cbn [parse_elements].
    destruct (parse_value f s) as [v' r'| |] eqn:E; [|discriminate|].
    + apply (proj1 (parse_length f)) in E.
      destruct (skip_ws r') as [|c r2] eqn:E2; [discriminate|].
      apply skip_ws_cons in E2.
      destruct (c =? COMMA); [apply IHe; lia|].
      destruct (c =? RBRACKET); discriminate.
    + exfalso. revert E. apply IHv. lia.
  - intros acc s L. cbn [parse_members].
    destruct (skip_ws s) as [|q s1] eqn:E; [discriminate|].
    apply skip_ws_cons in E.
    destruct (q =? QUOTE); [|discriminate].
    destruct (string_chars s1) as [[k s2]|] eqn:E1; [|discriminate].
    apply string_chars_length in E1.
    destruct (skip_ws s2) as [|c s3] eqn:E2; [discriminate|].
    apply skip_ws_cons in E2.
    destruct (c =? COLON); [|discriminate].
    destruct (parse_value f s3) as [v' r'| |] eqn:E3; [|discriminate|].
    + apply (proj1 (parse_length f)) in E3.
      destruct (skip_ws r') as [|d r2] eqn:E4; [discriminate|].
      apply skip_ws_cons in E4.
      destruct (d =? COMMA); [apply IHm; lia|].
      destruct (d =? RBRACE); discriminate.
    + exfalso. revert E3. apply IHv. lia.
Qed.

(** [Json.parse] never gives up for lack of fuel: a [SyntaxError] is a
    syntax error. *)
Lemma parse_value_fuel s : parse_value (parse_fuel s) s <> NoFuel.
Proof. apply (proj1 (parse_fuel_enough _)). unfold parse_fuel. lia. Qed.

Lemma parse_members_object fuel : forall acc s v r,
  parse_members fuel acc s = Parsed v r -> exists ps, v = JObject ps.
Proof.
  induction fuel as [|f IH]; intros acc s v r; [discriminate|].
  cbn [parse_members].
  destruct (skip_ws s) as [|q s1]; [discriminate|].
  destruct (q =? QUOTE); [|discriminate].
  destruct (string_chars s1) as [[k s2]|]; [|discriminate].
  destruct (skip_ws s2) as [|c s3]; [discriminate|].
  destruct (c =? COLON); [|discriminate].
  destruct (parse_value f s3) as [v' r'| |]; try discriminate.
  destruct (skip_ws r') as [|d r2]; [discriminate|].
  destruct (d =? COMMA); [apply IH|].
  destruct (d =? RBRACE); [|discriminate].
  intros H. injection H as <- _. eauto.
Qed.

Lemma parse_value_brace f s :
  parse_value (S f) (LBRACE :: s) =
  match skip_ws s with
  | [] => Syntax
  | c2 :: s2 =>
      if c2 =? RBRACE then Parsed (JObject []) s2
      else parse_members f [] (c2 :: s2)
  end.
Proof. reflexivity. Qed.

(** A text that starts with an opening brace parses to an object or not
    at all. *)
Lemma parse_brace_object s v :
  Json.parse (LBRACE :: s) = inr v -> exists ps, v = JObject ps.
Proof.
  unfold Json.parse, parse_fuel.
  replace (2 * List.length (LBRACE :: s) + 2)%nat
    with (S (2 * List.length s + 3)) by (simpl; lia).
  rewrite parse_value_brace.
  destruct (skip_ws s) as [|c2 s2]; [discriminate|].
  destruct (c2 =? RBRACE).
  - destruct (skip_ws s2); [|discriminate]. intros H. injection H as <-. eauto.
  - destruct (parse_members _ _ _) as [w r| |] eqn:E; try discriminate.
    apply parse_members_object in E. destruct (skip_ws r); [|discriminate].
    intros H. injection H as <-. exact E.
Qed.

End JsonFacts.

(** ** Base64 *)

Module Base64Facts.

Import Base64 Strings.Byte.

Lemma sextet_alphabet v : v < 64 -> sextet (alphabet v) = Some v.
Proof.
  intros H. unfold alphabet, sextet, PLUS, SLASH.
  destruct (N.ltb_spec v 26).
  { replace ((65 <=? 65 + v) && (65 + v <=? 90)) with true.
    - f_equal. lia.
    - symmetry. apply andb_true_iff. split; apply N.leb_le; lia. }
  destruct (N.ltb_spec v 52).
  { replace ((65 <=? 97 + (v - 26)) && (97 + (v - 26) <=? 90)) with false.
    - replace ((97 <=? 97 + (v - 26)) && (97 + (v - 26) <=? 122)) with true.
      + f_equal. lia.
      + symmetry. apply andb_true_iff. split; apply N.leb_le; lia.
    - symmetry. apply andb_false_iff. right. apply N.leb_gt. lia. }
  destruct (N.ltb_spec v 62).
  { replace ((65 <=? 48 + (v - 52)) && (48 + (v - 52) <=? 90)) with false.
    - replace ((97 <=? 48 + (v - 52)) && (48 + (v - 52) <=? 122)) with false.
      + replace ((48 <=? 48 + (v - 52)) && (48 + (v - 52) <=? 57)) with true.
        * f_equal. lia.
        * symmetry. apply andb_true_iff. split; apply N.leb_le; lia.
      + symmetry. apply andb_false_iff. left. apply N.leb_gt. lia.
    - symmetry. apply andb_false_iff. left. apply N.leb_gt. lia. }
  destruct (N.eqb_spec v 62) as [->|Hv]; [reflexivity|].
  assert (v = 63) as -> by lia. reflexivity.
Qed.

(** The alphabet has neither the padding character nor a comma. *)
Lemma alphabet_plain v : alphabet v <> PAD /\ alphabet v <> COMMA.
Proof.
  unfold alphabet, PAD, COMMA, PLUS, SLASH.
  destruct (N.ltb_spec v 26); [lia|].
  destruct (N.ltb_spec v 52); [lia|].
  destruct (N.ltb_spec v 62); [lia|].
  destruct (v =? 62); lia.
Qed.

Lemma triples_ind (P : list byte -> Prop) :
  P [] -> (forall a, P [a]) -> (forall a b, P [a; b]) ->
  (forall a b c l, P l -> P (a :: b :: c :: l)) ->
  forall l, P l.
Proof.
  intros H0 H1 H2 H3 l.
  enough (P l /\ (forall a, P (a :: l)) /\ (forall a b, P (a :: b :: l))) by tauto.
  induction l as [|x l (I0 & I1 & I2)]; auto.
Qed.

Lemma encode_no_comma bs : ~ In COMMA (encode bs).
Proof.
  induction bs as [| a | a b | a b c l IH] using triples_ind;
    cbn [encode In]; intros H;
    repeat match goal with
           | H : _ \/ _ |- _ => destruct H as [H|H]
           | H : alphabet ?v = COMMA |- _ => now apply (alphabet_plain v)
           | H : PAD = COMMA |- _ => discriminate H
           | H : False |- _ => destruct H
           end.
  now apply IH.
Qed.

Lemma byte_bound (a : byte) : to_N a < 256.
Proof. pose proof (to_N_bounded a). lia. Qed.

Section Groups.

Variables a b c : N.
Hypothesis Ha : a < 256.
Hypothesis Hb : b < 256.
Hypothesis Hc : c < 256.

Let n := group a b c.

Lemma group_sextets :
  n / 262144 < 64 /\ n / 4096 mod 64 < 64 /\ n / 64 mod 64 < 64 /\ n mod 64 < 64.
Proof.
  subst n. unfold group. repeat split; try (apply N.mod_lt; discriminate).
  apply N.Div0.div_lt_upper_bound. lia.
Qed.

Lemma quad_group :
  quad (n / 262144) (n / 4096 mod 64) (n / 64 mod 64) (n mod 64) = n.
Proof.
  subst n. unfold quad, group.
  zify. Z.to_euclidean_division_equations. lia.
Qed.

Lemma group_bytes :
  (n / 65536) mod 256 = a /\ (n / 256) mod 256 = b /\ n mod 256 = c.
Proof.
  subst n. unfold group.
  repeat split; zify; Z.to_euclidean_division_equations; lia.
Qed.

End Groups.

Lemma quad_group1 (a : N) :
  a < 256 ->
  quad (group a 0 0 / 262144) (group a 0 0 / 4096 mod 64) 0 0 = group a 0 0.
Proof.
  intros Ha. unfold quad, group. zify. Z.to_euclidean_division_equations. lia.
Qed.

Lemma quad_group2 (a b : N) :
  a < 256 -> b < 256 ->
  quad (group a b 0 / 262144) (group a b 0 / 4096 mod 64)
       (group a b 0 / 64 mod 64) 0 = group a b 0.
Proof.
  intros Ha Hb. unfold quad, group. zify. Z.to_euclidean_division_equations. lia.
Qed.

Lemma bytes_of_group (a b c : byte) count :
  bytes_of (group (to_N a) (to_N b) (to_N c)) count = Some (firstn count [a; b; c]).
Proof.
  unfold bytes_of, byte_of.
  destruct (group_bytes _ _ _ (byte_bound a) (byte_bound b) (byte_bound c))
    as (-> & -> & ->).
  now rewrite !of_to_N.
Qed.

(** Decoding undoes encoding. *)
Lemma decode_encode bs : decode (encode bs) = Some bs.
Proof.
  induction bs as [| a | a b | a b c l IH] using triples_ind.
  - reflexivity.
  - cbn [encode decode]. cbv zeta.
    pose proof (byte_bound a) as Ha.
    destruct (group_sextets (to_N a) 0 0 Ha eq_refl eq_refl) as (S0 & S1 & _ & _).
    rewrite !sextet_alphabet by assumption.
    change (PAD =? PAD) with true. cbv iota.
    rewrite quad_group1 by assumption.
    exact (bytes_of_group a x00 x00 1).
  - cbn [encode decode]. cbv zeta.
    pose proof (byte_bound a) as Ha. pose proof (byte_bound b) as Hb.
    destruct (group_sextets (to_N a) (to_N b) 0 Ha Hb eq_refl) as (S0 & S1 & S2 & _).
    rewrite !sextet_alphabet by assumption.
    change (PAD =? PAD) with true. cbv iota.
    destruct (N.eqb_spec (alphabet (group (to_N a) (to_N b) 0 / 64 mod 64)) PAD)
      as [E|_]; [now apply alphabet_plain in E|].
    rewrite quad_group2 by assumption.
    exact (bytes_of_group a b x00 2).
  - cbn [encode decode]. cbv zeta.
    pose proof (byte_bound a) as Ha. pose proof (byte_bound b) as Hb.
    pose proof (byte_bound c) as Hc.
    destruct (group_sextets (to_N a) (to_N b) (to_N c) Ha Hb Hc)
      as (S0 & S1 & S2 & S3).
    rewrite !sextet_alphabet by assumption.
    destruct (N.eqb_spec (alphabet (group (to_N a) (to_N b) (to_N c) mod 64)) PAD)
      as [E|_]; [now apply alphabet_plain in E|].
    rewrite IH, quad_group by assumption.
    rewrite (bytes_of_group a b c 3). reflexivity.
Qed.

End Base64Facts.

(** * The response validator, [processGeminiResponse] *)

Section Validator.

Import Regex RegexFacts JsonFacts.

Lemma catch_block_own_error m :
  includes (str "JSON") m = false -> catch_block (Error m) = inl (Error m).
Proof. unfold catch_block. simpl. now intros ->. Qed.

Lemma catch_block_syntax_error e :
  includes (str "JSON") (message e) = true ->
  catch_block e = inl (Error could_not_analyze).
Proof. unfold catch_block. now intros ->. Qed.

(** [Json.parse] only ever throws the [SyntaxError]. *)
Lemma parse_throws text e :
  Json.parse text = inl e -> e = SyntaxError syntax_error_message.
Proof.
  unfold Json.parse. destruct (parse_value _ _) as [v r| |];
    [destruct (skip_ws r)|..]; congruence.
Qed.

(** What [processGeminiResponse] returns, stage by stage. *)
Lemma processGeminiResponse_refusal t :
  is_refusal t = true ->
  processGeminiResponse t = inl (Error no_samosa_detected).
Proof.
  intros H. unfold processGeminiResponse, try_block. rewrite H.
  now apply catch_block_own_error.
Qed.

Lemma processGeminiResponse_no_match t :
  is_refusal t = false -> jsonRegex_match t = None ->
  processGeminiResponse t = inl (Error could_not_get_analysis).
Proof.
  intros H1 H2. unfold processGeminiResponse, try_block. rewrite H1, H2.
  now apply catch_block_own_error.
Qed.

Lemma processGeminiResponse_syntax t m e :
  is_refusal t = false -> jsonRegex_match t = Some m -> Json.parse m = inl e ->
  processGeminiResponse t = inl (Error could_not_analyze).
Proof.
  intros H1 H2 H3. unfold processGeminiResponse, try_block.
  rewrite H1, H2, H3. apply catch_block_syntax_error.
  now rewrite (parse_throws _ _ H3).
Qed.

Lemma processGeminiResponse_shape t m v :
  is_refusal t = false -> jsonRegex_match t = Some m -> Json.parse m = inr v ->
  processGeminiResponse t =
  if bad_shape v then inl (Error invalid_analysis_format) else inr v.
Proof.
  intros H1 H2 H3. unfold processGeminiResponse, try_block.
  rewrite H1, H2, H3. destruct (bad_shape v); [|reflexivity].
  now apply catch_block_own_error.
Qed.

Lemma processGeminiResponse_bad_shape t m v :
  is_refusal t = false -> jsonRegex_match t = Some m -> Json.parse m = inr v ->
  truthy_opt (get v (str "score")) = false \/
  truthy_opt (get v (str "corners")) = false ->
  processGeminiResponse t = inl (Error invalid_analysis_format).
Proof.
  intros R M P H. rewrite (processGeminiResponse_shape _ _ _ R M P).
  replace (bad_shape v) with true; [reflexivity|].
  unfold bad_shape. destruct H as [-> | ->]; simpl;
    now rewrite ?orb_true_r.
Qed.

(** A returned value went through every stage. *)
Lemma processGeminiResponse_inr t v :
  processGeminiResponse t = inr v ->
  is_refusal t = false /\
  exists m, jsonRegex_match t = Some m /\ Json.parse m = inr v /\
            bad_shape v = false.
Proof.
  unfold processGeminiResponse, try_block.
  destruct (is_refusal t); [discriminate|].
  destruct (jsonRegex_match t) as [m|]; [|discriminate].
  destruct (Json.parse m) as [e|w] eqn:E.
  { unfold catch_block. destruct (includes _ _); discriminate. }
  destruct (bad_shape w) eqn:B.
  { unfold catch_block. destruct (includes _ _); discriminate. }
  intros H. injection H as <-. eauto.
Qed.

End Validator.

(** * The claims about the validator *)

Section ValidatorClaims.

Import Regex RegexFacts JsonFacts.

(** C1. A reply in which "sorry" or "unable to" occurs, in any letter
    case, is rejected with the no-samosa error (the specification's
    NoSubjectDetectedError), whatever else the reply holds: the test comes
    first and nothing after it runs. *)
Theorem refusal_short_circuits (t : jsstring) :
  includes (str "sorry") (toLowerCase t) = true \/
  includes (str "unable to") (toLowerCase t) = true ->
  processGeminiResponse t = inl (Error no_samosa_detected) /\
  error_class (Error no_samosa_detected) = NoSubjectDetectedError.
Proof.
  intros H. split; [|reflexivity].
  apply processGeminiResponse_refusal. unfold is_refusal.
  apply orb_true_iff. exact H.
Qed.

Lemma refusal_short_circuits_witness :
  (exists m v, jsonRegex_match reply_refusal_with_json = Some m /\
               Json.parse m = inr v /\ bad_shape v = false) /\
  processGeminiResponse reply_refusal_with_json = inl (Error no_samosa_detected).
Proof.
  split.
  - eexists. eexists.
    split; [vm_compute; reflexivity|]. split; vm_compute; reflexivity.
  - apply (refusal_short_circuits reply_refusal_with_json).
    left. vm_compute. reflexivity.
Defined.

(** C2, as stated, fails: a reply whose corners array is empty is
    returned, not rejected. *)
Lemma empty_corners_returned :
  exists v, processGeminiResponse reply_empty_corners = inr v /\ ~ has_corner v.
Proof.
  exists (JObject [(str "score", JInt 85); (str "corners", JArray [])]).
  split; [vm_compute; reflexivity|].
  intros (c & cs & H). vm_compute in H. discriminate H.
Qed.

(** C2, amended. Every value [processGeminiResponse] returns is an object
    whose [score] and [corners] are both present and truthy (so neither
    missing, nor [null]); an object that lacks either is never returned.
    Truthy is all the check asks of [corners]: it need not have an
    element. *)
Theorem returned_record_shape (t : jsstring) (v : JSON) :
  processGeminiResponse t = inr v ->
  (exists ps, v = JObject ps) /\
  truthy_opt (get v (str "score")) = true /\
  truthy_opt (get v (str "corners")) = true /\
  get v (str "score") <> None /\ get v (str "score") <> Some JNull /\
  get v (str "corners") <> None /\ get v (str "corners") <> Some JNull.
Proof.
  intros H. apply processGeminiResponse_inr in H as (_ & m & Hm & Hp & Hb).
  unfold bad_shape in Hb.
  apply orb_false_iff in Hb as [Hb Hc]. apply orb_false_iff in Hb as [_ Hs].
  apply negb_false_iff in Hs, Hc.
  destruct (jsonRegex_match_Some _ _ Hm) as (pre & body & post & _ & -> & _).
  split; [exact (parse_brace_object _ _ Hp)|].
  repeat split; try assumption; intros E; rewrite E in *; discriminate.
Qed.

Lemma returned_record_shape_witness :
  processGeminiResponse reply_empty_corners =
    inr (JObject [(str "score", JInt 85); (str "corners", JArray [])]) /\
  truthy_opt (get (JObject [(str "score", JInt 85); (str "corners", JArray [])])
                  (str "corners")) = true.
Proof.
  assert (processGeminiResponse reply_empty_corners =
          inr (JObject [(str "score", JInt 85); (str "corners", JArray [])]))
    as H by (vm_compute; reflexivity).
  split; [exact H|].
  apply (returned_record_shape reply_empty_corners _ H).
Defined.

(** C4, as stated, fails in its last part: the reply without braces and
    the reply whose braces hold malformed JSON are rejected with two
    different messages, and the message is what the caller shows. *)
Lemma unusable_replies_told_apart :
  ~ braced_span reply_prose /\
  (exists m e, jsonRegex_match reply_malformed = Some m /\ Json.parse m = inl e) /\
  processGeminiResponse reply_prose = inl (Error could_not_get_analysis) /\
  processGeminiResponse reply_malformed = inl (Error could_not_analyze) /\
  processGeminiResponse reply_prose <> processGeminiResponse reply_malformed.
Proof.
  split; [apply jsonRegex_match_None; vm_compute; reflexivity|].
  split; [eexists; eexists; split; vm_compute; reflexivity|].
  split; [vm_compute; reflexivity|].
  split; [vm_compute; reflexivity|].
  vm_compute. discriminate.
Qed.

(** C4, amended. A reply without a refusal marker is rejected as unusable
    (the specification's NoStructuredPayloadError) both when no opening
    brace is followed by a closing one and when the braced span is not
    valid JSON; the first case carries the message "Could not get a proper
    analysis. ...", the second "Could not analyze the image properly. ...",
    and the two messages differ. *)
Theorem unusable_reply_rejected (t : jsstring) :
  is_refusal t = false ->
  (~ braced_span t ->
   processGeminiResponse t = inl (Error could_not_get_analysis)) /\
  (forall m e, jsonRegex_match t = Some m -> Json.parse m = inl e ->
   processGeminiResponse t = inl (Error could_not_analyze)) /\
  error_class (Error could_not_get_analysis) = NoStructuredPayloadError /\
  error_class (Error could_not_analyze) = NoStructuredPayloadError /\
  could_not_get_analysis <> could_not_analyze.
Proof.
  intros R. split; [|split].
  - intros H. apply processGeminiResponse_no_match; [exact R|].
    now apply jsonRegex_match_None.
  - intros m e. now apply processGeminiResponse_syntax.
  - repeat split. vm_compute. discriminate.
Qed.

Lemma unusable_reply_rejected_witness :
  processGeminiResponse reply_prose = inl (Error could_not_get_analysis) /\
  processGeminiResponse reply_malformed = inl (Error could_not_analyze).
Proof.
  split.
  - apply (unusable_reply_rejected reply_prose); [vm_compute; reflexivity|].
    apply jsonRegex_match_None. vm_compute. reflexivity.
  - assert (is_refusal reply_malformed = false) as R by (vm_compute; reflexivity).
    apply (proj1 (proj2 (unusable_reply_rejected reply_malformed R))
             reply_malformed (SyntaxError syntax_error_message));
      vm_compute; reflexivity.
Defined.

(** C5. When the validator gets as far as extracting a braced span (the
    reply has no refusal marker) and the span parses to a value whose
    [score] or whose [corners] is missing, [null] or otherwise falsy, the
    reply is rejected with the invalid-format error (the specification's
    InvalidAnalysisShapeError). *)
Theorem missing_field_rejected (t m : jsstring) (v : JSON) :
  is_refusal t = false ->
  jsonRegex_match t = Some m ->
  Json.parse m = inr v ->
  truthy_opt (get v (str "score")) = false \/
  truthy_opt (get v (str "corners")) = false ->
  processGeminiResponse t = inl (Error invalid_analysis_format) /\
  error_class (Error invalid_analysis_format) = InvalidAnalysisShapeError.
Proof.
  intros R M P H. split; [|reflexivity].
  exact (processGeminiResponse_bad_shape t m v R M P H).
Qed.

(** The example of C5: the reply with [corners] and no [score]. *)
Lemma missing_field_rejected_witness :
  get (JObject [(str "corners", JArray [corner_top])]) (str "score") = None /\
  processGeminiResponse reply_no_score = inl (Error invalid_analysis_format).
Proof.
  split; [reflexivity|].
  apply (missing_field_rejected reply_no_score reply_no_score
           (JObject [(str "corners", JArray [corner_top])])).
  - vm_compute. reflexivity.
  - vm_compute. reflexivity.
  - vm_compute. reflexivity.
  - left. reflexivity.
Defined.

(** C6. The example reply, prose before the JSON, is accepted: the value
    returned has score 85 and the one corner Top, 60, Crispy. *)
Theorem example_reply_accepted :
  processGeminiResponse reply_good =
  inr (JObject [(str "score", JInt 85); (str "corners", JArray [corner_top])]).
Proof. vm_compute. reflexivity. Qed.

(** C10. A score of zero, however written (0, -0, 0.0, 0e3), is falsy: a
    reply that reaches the shape check with such a score is rejected with
    the invalid-format error although its corners are there. *)
Theorem zero_score_rejected (t m : jsstring) (v corners : JSON) (n : number) :
  is_refusal t = false ->
  jsonRegex_match t = Some m ->
  Json.parse m = inr v ->
  get v (str "score") = Some (JNumber n) ->
  digits n = 0 ->
  get v (str "corners") = Some corners ->
  processGeminiResponse t = inl (Error invalid_analysis_format) /\
  error_class (Error invalid_analysis_format) = InvalidAnalysisShapeError.
Proof.
  intros R M P S Z _. split; [|reflexivity].
  apply (processGeminiResponse_bad_shape t m v R M P).
  left. rewrite S. simpl. unfold rounds_to_zero. now rewrite Z.
Qed.

Lemma zero_score_rejected_witness :
  processGeminiResponse reply_zero_score = inl (Error invalid_analysis_format).
Proof.
  apply (zero_score_rejected reply_zero_score reply_zero_score
           (JObject [(str "score", JInt 0); (str "corners", JArray [corner_top])])
           (JArray [corner_top]) (mkNumber false 0 0));
    vm_compute; reflexivity.
Defined.

End ValidatorClaims.

(** * The image encoder, [getImageData] *)

Section Encoder.

Import Base64Facts.

Lemma split_whole sep s : ~ In sep s -> split sep s = [s].
Proof.
  induction s as [|c s IH]; simpl; [reflexivity|]. intros H.
  destruct (N.eqb_spec c sep) as [->|_]; [tauto|].
  rewrite IH by tauto. reflexivity.
Qed.

Lemma split_at_first sep a b :
  ~ In sep a -> split sep (a ++ sep :: b) = a :: split sep b.
Proof.
  induction a as [|c a IH]; simpl; intros H.
  - now rewrite N.eqb_refl.
  - destruct (N.eqb_spec c sep) as [->|_]; [tauto|].
    rewrite IH by tauto. reflexivity.
Qed.

Lemma str_no_comma_data : ~ In COMMA (str "data:").
Proof. vm_compute. intuition discriminate. Qed.

Lemma str_no_comma_base64 : ~ In COMMA (str ";base64").
Proof. vm_compute. intuition discriminate. Qed.

(** With no comma in the media type, the second piece of the data URL is
    the base64 payload. *)
Lemma split_readAsDataURL f :
  ~ In COMMA (type f) ->
  nth_error (split COMMA (readAsDataURL f)) 1 = Some (Base64.encode (contents f)).
Proof.
  intros H. unfold readAsDataURL.
  change (str ";base64,") with (str ";base64" ++ [COMMA]).
  rewrite <- !app_assoc.
  replace (str "data:" ++ type f ++ str ";base64" ++ [COMMA] ++ Base64.encode (contents f))
    with ((str "data:" ++ type f ++ str ";base64") ++ COMMA :: Base64.encode (contents f))
    by now rewrite <- !app_assoc.
  rewrite split_at_first.
  - now rewrite split_whole by apply encode_no_comma.
  - rewrite !in_app_iff. intros [K|[K|K]]; [|tauto|].
    + now apply str_no_comma_data.
    + now apply str_no_comma_base64.
Qed.

Lemma encode_nonempty bs : bs <> [] -> JsString.truthy (Base64.encode bs) = true.
Proof.
  destruct bs as [|a [|b [|c l]]]; [congruence | reflexivity..].
Qed.

Lemma getImageData_image w f :
  startsWith (str "image/") (type f) = true ->
  ~ In COMMA (type f) ->
  read_fails w f = false ->
  getImageData w (Some f) =
  if JsString.truthy (Base64.encode (contents f))
  then inr (Base64.encode (contents f))
  else inl (Error failed_to_convert).
Proof.
  intros T C R. unfold getImageData.
  rewrite T, R, split_readAsDataURL by assumption. reflexivity.
Qed.

Lemma getImageData_invalid w file :
  file = None \/
  (exists f, file = Some f /\ startsWith (str "image/") (type f) = false) ->
  getImageData w file = inl (Error invalid_file_type).
Proof.
  intros [-> | (f & -> & H)]; [reflexivity|].
  unfold getImageData. now rewrite H.
Qed.

End Encoder.

(** * The claims about the encoder and the session *)

Section SessionClaims.

(** C7. With no file, or a file whose declared type does not start with
    image/, [getImageData] rejects with the invalid-file-type error (the
    specification's InvalidInputError), and the upload handler sends no
    request to the service. *)
Theorem invalid_input_rejected_before_request (w : World) (file : option File) :
  file = None \/
  (exists f, file = Some f /\ startsWith (str "image/") (type f) = false) ->
  getImageData w file = inl (Error invalid_file_type) /\
  error_class (Error invalid_file_type) = InvalidInputError /\
  forall st imageData, ~ In (Request imageData) (snd (onImageChange w file st)).
Proof.
  intros H. pose proof (getImageData_invalid w file H) as G.
  split; [exact G|]. split; [reflexivity|].
  intros st d. unfold onImageChange.
  destruct file as [f|]; [|simpl; tauto].
  rewrite G. simpl. intros [K|[]]. discriminate K.
Qed.

Lemma invalid_input_rejected_before_request_witness :
  getImageData (example_world reply_good) (Some notes) = inl (Error invalid_file_type) /\
  snd (onImageChange (example_world reply_good) (Some notes) initial) =
    [Alert invalid_file_type] /\
  getImageData (example_world reply_good) None = inl (Error invalid_file_type).
Proof.
  split; [|split].
  - apply (invalid_input_rejected_before_request _ (Some notes)).
    right. exists notes. split; reflexivity.
  - reflexivity.
  - apply (invalid_input_rejected_before_request _ None). now left.
Defined.

(** C9. For a file that can be read, whose declared type starts with
    image/ and (as every media type) has no comma: whatever
    [getImageData] resolves to decodes to the file's contents, and it does
    resolve whenever the file is not empty. *)
Theorem encode_decode_roundtrip (w : World) (f : File) :
  startsWith (str "image/") (type f) = true ->
  ~ In COMMA (type f) ->
  read_fails w f = false ->
  (forall payload, getImageData w (Some f) = inr payload ->
     Base64.decode payload = Some (contents f)) /\
  (contents f <> [] ->
     getImageData w (Some f) = inr (Base64.encode (contents f))).
Proof.
  intros T C R. rewrite (getImageData_image w f T C R). split.
  - intros payload. destruct (JsString.truthy _); [|discriminate].
    intros H. injection H as <-. apply Base64Facts.decode_encode.
  - intros H. now rewrite encode_nonempty.
Qed.

Lemma encode_decode_roundtrip_witness :
  getImageData (example_world reply_good) (Some png) = inr (str "iVBORw==") /\
  Base64.decode (str "iVBORw==") = Some (contents png).
Proof.
  assert (~ In COMMA (type png)) as C by (vm_compute; intuition discriminate).
  destruct (encode_decode_roundtrip (example_world reply_good) png
              eq_refl C eq_refl) as [D E].
  split.
  - apply E. discriminate.
  - apply D. apply E. discriminate.
Defined.

(** [onImageChange] on a present file, case by case. *)
Lemma onImageChange_step w f st :
  step (fst (onImageChange w (Some f) st)) =
  match getImageData w (Some f) with
  | inl _ => upload
  | inr imageData =>
      match fst (fst (analyzeImage w imageData (onImageChange_start f st))) with
      | inl _ => upload
      | inr _ => result
      end
  end.
Proof.
  unfold onImageChange. destruct (getImageData w (Some f)); [reflexivity|].
  destruct (analyzeImage _ _ _) as [[[e|v] st2] effects]; reflexivity.
Qed.

(** C3, as stated, fails: the button leaves the stored score and analysis
    where they are. *)
Lemma analyzeAnother_keeps_record :
  step session_with_result = result /\
  step (analyzeAnother session_with_result) = upload /\
  score (analyzeAnother session_with_result) = Some (JInt 85) /\
  analysis (analyzeAnother session_with_result) =
    Some (JObject [(str "score", JInt 85); (str "corners", JArray [corner_top])]).
Proof. vm_compute. repeat split. Qed.

(** C3, amended. From the result view the button moves the session to the
    upload view and changes nothing else: the stored score and analysis
    stay as they were.  They are cleared when the next file is selected. *)
Theorem analyzeAnother_to_upload (st : State) :
  step st = result ->
  step (analyzeAnother st) = upload /\
  score (analyzeAnother st) = score st /\
  analysis (analyzeAnother st) = analysis st /\
  image (analyzeAnother st) = image st /\
  currentMessageIndex (analyzeAnother st) = currentMessageIndex st /\
  forall f, score (onImageChange_start f (analyzeAnother st)) = None /\
            analysis (onImageChange_start f (analyzeAnother st)) = None.
Proof. intros _. repeat split. Qed.

Lemma analyzeAnother_to_upload_witness :
  step (analyzeAnother session_with_result) = upload /\
  score (analyzeAnother session_with_result) = score session_with_result.
Proof.
  assert (step session_with_result = result) as H by (vm_compute; reflexivity).
  split; apply (analyzeAnother_to_upload session_with_result H).
Defined.

(** C8. A file selected in the upload view puts the session in the
    analyzing view while it is processed; when processing completes the
    session is in the result view if [getImageData] resolved and
    [analyzeImage] returned, and back in the upload view otherwise.  It is
    never left in the analyzing view. *)
Theorem upload_cycle_ends (w : World) (f : File) (st : State) :
  step st = upload ->
  let final := fst (onImageChange w (Some f) st) in
  step (onImageChange_start f st) = analyzing /\
  (step final = result \/ step final = upload) /\
  step final <> analyzing /\
  (step final = result <->
   exists imageData analysisData,
     getImageData w (Some f) = inr imageData /\
     fst (fst (analyzeImage w imageData (onImageChange_start f st))) =
       inr analysisData).
Proof.
  intros _ final. subst final. rewrite onImageChange_step.
  split; [reflexivity|].
  destruct (getImageData w (Some f)) as [e|d].
  - repeat split; auto; try discriminate.
    intros (d & v & H & _). discriminate H.
  - destruct (fst (fst (analyzeImage w d (onImageChange_start f st))))
      as [e|v] eqn:E.
    + repeat split; auto; try discriminate.
      intros (d' & v' & H & K). injection H as H. subst d'.
      rewrite E in K. discriminate K.
    + repeat split; auto; try discriminate. intros _. eauto.
Qed.

Lemma upload_cycle_ends_witness :
  step (fst (onImageChange (example_world reply_good) (Some png) initial)) = result /\
  step (fst (onImageChange (example_world reply_prose) (Some png) initial)) = upload.
Proof.
  split.
  - apply (upload_cycle_ends (example_world reply_good) png initial eq_refl).
    eexists. eexists. split; vm_compute; reflexivity.
  - destruct (upload_cycle_ends (example_world reply_prose) png initial eq_refl)
      as (_ & [H|H] & _ & I); [|exact H].
    apply I in H as (d & v & H1 & H2). exfalso.
    vm_compute in H1. injection H1 as <-. vm_compute in H2. discriminate H2.
Defined.

End SessionClaims.

(** * The session, event by event *)

Section SessionFacts.

(** The big step is the first lines followed by the rest. *)
Lemma onImageChange_split w f st :
  onImageChange w (Some f) st =
  onImageChange_resume w f (onImageChange_start f st).
Proof. reflexivity. Qed.

(** The two ways an upload completes. *)
Lemma onImageChange_resume_cases w f st :
  fst (onImageChange_resume w f st) = setStep upload st \/
  exists v, bad_shape v = false /\
    fst (onImageChange_resume w f st) =
    setStep result (setAnalysis (Some v) (setScore (get v (str "score")) st)).
Proof.
  unfold onImageChange_resume, analyzeImage.
  destruct (getImageData w (Some f)) as [e|d]; [now left|].
  destruct (generateContent w d) as [e| |t]; [now left..|].
  destruct (processGeminiResponse t) as [e|v] eqn:E; [now left|].
  right. exists v. split; [|reflexivity].
  now apply processGeminiResponse_inr in E as (_ & m & _ & _ & B).
Qed.

Lemma render_upload st :
  step st = upload -> render st = Some (mkView true None None None).
Proof. unfold render. now intros ->. Qed.

Lemma render_analyzing st :
  step st = analyzing ->
  render st =
  Some (mkView false (image st) (nth_error messages (currentMessageIndex st)) None).
Proof. unfold render. now intros ->. Qed.

(** In the result step the panel is all that can be rendered. *)
Lemma render_result st a :
  step st = result -> analysis st = Some a -> truthy a = true ->
  render st =
  match results_panel st a with
  | Some p => Some (mkView false (image st) None (Some p))
  | None => None
  end.
Proof. unfold render. intros -> -> T. simpl. now rewrite T. Qed.

Lemma tick_index st : (currentMessageIndex (tick st) < 3)%nat.
Proof. unfold tick. cbn [currentMessageIndex setCurrentMessageIndex].
  apply Nat.mod_upper_bound. discriminate. Qed.

Lemma tick_fields st :
  step (tick st) = step st /\ image (tick st) = image st /\
  score (tick st) = score st /\ analysis (tick st) = analysis st.
Proof. repeat split. Qed.

Lemma Inv_initial : Inv initial_session.
Proof. split; [simpl; lia | repeat split]. Qed.

Lemma bad_shape_truthy a : bad_shape a = false -> truthy a = true.
Proof.
  unfold bad_shape. intros H.
  apply orb_false_iff in H as [H _]. apply orb_false_iff in H as [H _].
  now apply negb_false_iff in H.
Qed.

Lemma Inv_fire e s s' : Inv s -> fire e s = Some s' -> Inv s'.
Proof.
  unfold Inv. intros [I J] F. destruct e as [file| |w|]; cbn [fire] in F.
  - (* Select *)
    unfold view in F. destruct (mounted s) eqn:M; [|discriminate].
    destruct (step (state s)) eqn:St.
    + rewrite (render_upload _ St) in F. cbn [upload_control] in F.
      destruct file as [f|]; injection F as <-.
      * destruct J as (P & L & C). unfold update.
        rewrite render_analyzing by reflexivity. cbn. rewrite St. cbn.
        unfold run_cleanup, run_effect. rewrite C, L. cbn.
        split; [lia|]. exists f, (next_id (timers s)). repeat split.
      * split; [exact I|]. now rewrite M, St.
    + rewrite (render_analyzing _ St) in F. discriminate.
    + destruct J as (_ & _ & _ & a & A & _ & B & _).
      rewrite (render_result _ a St A (bad_shape_truthy _ B)) in F.
      destruct (results_panel _ _); discriminate.
  - (* Tick *)
    destruct (live (timers s)) as [|id l] eqn:L; [discriminate|].
    injection F as <-.
    destruct (mounted s) eqn:M; [|destruct J as (_ & _ & K & _); congruence].
    destruct (step (state s)) eqn:St;
      [now destruct J as (_ & K & _) | | now destruct J as (_ & K & _)].
    destruct J as (f & id' & P & Im & Sc & An & L' & C).
    destruct (tick_fields (state s)) as (T1 & T2 & T3 & T4).
    unfold update. rewrite render_analyzing by congruence.
    cbn [state pending timers mounted]. rewrite T1, T2, T3, T4, St.
    split; [apply tick_index|].
    exists f, id'. unfold after_render. cbn [Step_eqb].
    repeat split; congruence.
  - (* Settle *)
    destruct (pending s) as [f|] eqn:P; [|discriminate].
    destruct (mounted s) eqn:M; [|destruct J as (_ & K & _); congruence].
    destruct (step (state s)) eqn:St;
      [destruct J as (K & _); congruence | | destruct J as (K & _); congruence].
    destruct J as (f' & id & P' & Im & Sc & An & L & C).
    destruct (onImageChange_resume w f (state s)) as [st' effects] eqn:R.
    injection F as <-.
    pose proof (onImageChange_resume_cases w f (state s)) as K.
    rewrite R in K. cbn [fst] in K. destruct K as [-> | (v & B & ->)].
    + unfold update. rewrite render_upload by reflexivity. cbn.
      rewrite St. cbn. unfold run_cleanup. rewrite C. cbn. rewrite L. cbn.
      rewrite Nat.eqb_refl. cbn. split; [exact I | repeat split].
    + unfold update.
      rewrite (render_result _ v) by (reflexivity || now apply bad_shape_truthy).
      destruct (results_panel _ v) as [p|] eqn:RP; cbn.
      * rewrite St. cbn. unfold run_cleanup. rewrite C. cbn. rewrite L. cbn.
        rewrite Nat.eqb_refl. cbn. split; [exact I|].
        repeat split. exists v. repeat split; [exact B|]. rewrite Im. discriminate.
      * unfold run_cleanup. rewrite C. cbn. rewrite L. cbn.
        rewrite Nat.eqb_refl. cbn. split; [exact I|].
        repeat split. exists v. repeat split; assumption.
  - (* AnalyzeAnother *)
    unfold view in F. destruct (mounted s) eqn:M; [|discriminate].
    destruct (step (state s)) eqn:St.
    + rewrite (render_upload _ St) in F. discriminate.
    + rewrite (render_analyzing _ St) in F. discriminate.
    + destruct J as (P & L & C & a & A & Sc & B & Im).
      rewrite (render_result _ a St A (bad_shape_truthy _ B)) in F.
      destruct (results_panel _ _); [|discriminate]. cbn [results] in F.
      injection F as <-. unfold update.
      rewrite render_upload by reflexivity. cbn. rewrite St. cbn.
      unfold run_cleanup. rewrite C. cbn.
      split; [exact I | repeat split; assumption].
Qed.

Lemma Inv_run es : forall s s', Inv s -> run es s = Some s' -> Inv s'.
Proof.
  induction es as [|e es IH]; intros s s' I R; cbn in R.
  - now injection R as <-.
  - destruct (fire e s) as [s1|] eqn:F; [|discriminate].
    eapply IH; [|exact R]. eapply Inv_fire; eassumption.
Qed.

Lemma reachable_Inv s : reachable s -> Inv s.
Proof. intros [es R]. exact (Inv_run es _ _ Inv_initial R). Qed.

End SessionFacts.

(** * Further properties of the validator *)

Section ValidatorExtras.

Import Regex RegexFacts JsonFacts JsStringFacts.

Lemma any_star_rbrace_last body : forall post,
  ~ In RBRACE post ->
  any_star_rbrace (body ++ RBRACE :: post) = Some (body ++ [RBRACE]).
Proof.
  induction body as [|c body IH]; intros post H; simpl.
  - apply any_star_rbrace_None in H. now rewrite H.
  - now rewrite IH.
Qed.

(** The span of a text cut at its first [{] and its last [}]. *)
Lemma jsonRegex_match_span pre body post :
  ~ In LBRACE pre -> ~ In RBRACE post ->
  jsonRegex_match (pre ++ LBRACE :: body ++ RBRACE :: post) =
  Some (LBRACE :: body ++ [RBRACE]).
Proof.
  intros Hpre Hpost. induction pre as [|c pre IH].
  - cbn [app jsonRegex_match match_here]. rewrite N.eqb_refl.
    now rewrite any_star_rbrace_last.
  - cbn [app jsonRegex_match match_here].
    destruct (N.eqb_spec c LBRACE) as [->|_]; [exfalso; apply Hpre; now left|].
    apply IH. intros K. apply Hpre. now right.
Qed.

Lemma bad_shape_object ps :
  bad_shape (JObject ps) = false <->
  truthy_opt (get (JObject ps) (str "score")) = true /\
  truthy_opt (get (JObject ps) (str "corners")) = true.
Proof.
  unfold bad_shape. cbn [truthy negb orb].
  rewrite orb_false_iff, !negb_false_iff. tauto.
Qed.

(** X1. [processGeminiResponse] returns a value exactly when the reply has
    no refusal marker and the text from its first [{] to its last [}] is
    valid JSON with a truthy [score] and a truthy [corners]; the value is
    that JSON.  Nothing else about the reply matters: not the prose around
    the span, not the type or range of the score, not what the corners
    hold. *)
Theorem accepted_iff (t : jsstring) (v : JSON) :
  processGeminiResponse t = inr v <->
  is_refusal t = false /\
  exists pre body post,
    t = pre ++ LBRACE :: body ++ RBRACE :: post /\
    ~ In LBRACE pre /\ ~ In RBRACE post /\
    Json.parse (LBRACE :: body ++ [RBRACE]) = inr v /\
    truthy_opt (get v (str "score")) = true /\
    truthy_opt (get v (str "corners")) = true.
Proof.
  split.
  - intros H. apply processGeminiResponse_inr in H as (R & m & M & P & B).
    split; [exact R|].
    destruct (jsonRegex_match_Some _ _ M) as (pre & body & post & E & -> & Hpre & Hpost).
    destruct (parse_brace_object _ _ P) as [ps ->].
    apply bad_shape_object in B as [B1 B2].
    exists pre, body, post. repeat split; try assumption.
    rewrite E. cbn [app]. now rewrite <- app_assoc.
  - intros (R & pre & body & post & -> & Hpre & Hpost & P & B1 & B2).
    rewrite (processGeminiResponse_shape _ _ _ R
               (jsonRegex_match_span pre body post Hpre Hpost) P).
    destruct (parse_brace_object _ _ P) as [ps ->].
    now rewrite (proj2 (bad_shape_object ps) (conj B1 B2)).
Qed.

(** X2. Whatever the reply, a failure of [processGeminiResponse] is an
    [Error] carrying one of its four messages.  The [SyntaxError] of
    [JSON.parse] never reaches the caller. *)
Theorem failure_messages (t : jsstring) (e : exn) :
  processGeminiResponse t = inl e ->
  e = Error no_samosa_detected \/ e = Error could_not_get_analysis \/
  e = Error could_not_analyze \/ e = Error invalid_analysis_format.
Proof.
  destruct (is_refusal t) eqn:R.
  { rewrite (processGeminiResponse_refusal t R). intros H. injection H as <-. auto. }
  destruct (jsonRegex_match t) as [m|] eqn:M.
  2:{ rewrite (processGeminiResponse_no_match t R M). intros H.
      injection H as <-. auto. }
  destruct (Json.parse m) as [s|v] eqn:P.
  { rewrite (processGeminiResponse_syntax t m s R M P). intros H.
    injection H as <-. auto. }
  rewrite (processGeminiResponse_shape t m v R M P).
  destruct (bad_shape v); [|discriminate]. intros H. injection H as <-. auto.
Qed.

Lemma failure_messages_witness :
  processGeminiResponse reply_malformed = inl (Error could_not_analyze) /\
  (Error could_not_analyze = Error no_samosa_detected \/
   Error could_not_analyze = Error could_not_get_analysis \/
   Error could_not_analyze = Error could_not_analyze \/
   Error could_not_analyze = Error invalid_analysis_format).
Proof.
  assert (processGeminiResponse reply_malformed = inl (Error could_not_analyze))
    as H by (vm_compute; reflexivity).
  split; [exact H|]. exact (failure_messages reply_malformed _ H).
Defined.

Lemma toLowerCase_app a b : toLowerCase (a ++ b) = toLowerCase a ++ toLowerCase b.
Proof. unfold toLowerCase. apply flat_map_app. Qed.

(** X3. The refusal test is blind to letter case and to position: a reply
    that holds, anywhere, a piece whose lower-case form is "sorry" or
    "unable to" is rejected as a refusal. *)
Theorem refusal_any_case (a m b : jsstring) :
  toLowerCase m = str "sorry" \/ toLowerCase m = str "unable to" ->
  processGeminiResponse (a ++ m ++ b) = inl (Error no_samosa_detected).
Proof.
  intros H. apply processGeminiResponse_refusal. unfold is_refusal.
  rewrite !toLowerCase_app. apply orb_true_iff.
  destruct H as [-> | ->]; [left | right]; apply includes_app; eauto.
Qed.

Lemma refusal_any_case_witness :
  processGeminiResponse
    (qstr "{'score': 85, 'corners': [{'name':'Top','angle':60,'comment':'" ++
     str "SoRRy" ++ qstr ", a bit soft'}]}") =
  inl (Error no_samosa_detected).
Proof. apply refusal_any_case. left. reflexivity. Defined.

End ValidatorExtras.

(** * Further properties of the encoder and of an upload *)

Section UploadExtras.

Import Base64Facts.

(** No piece of a split holds the separator. *)
Lemma split_pieces sep s : Forall (fun piece => ~ In sep piece) (split sep s).
Proof.
  induction s as [|c s IH]; cbn [split].
  - repeat constructor. tauto.
  - destruct (N.eqb_spec c sep) as [->|Hc].
    + constructor; [tauto | exact IH].
    + destruct (split sep s) as [|piece rest]; [repeat constructor|].
      * intros [K|[]]. congruence.
      * inversion IH as [|? ? H1 H2]; subst. constructor; [|exact H2].
        intros [K|K]; [congruence | tauto].
Qed.

(** X4. What [getImageData] hands over is never empty and holds no comma,
    whatever the file: the data URL's prefix, which ends at the first
    comma, is never part of it. *)
Theorem payload_has_no_prefix (w : World) (file : option File) (payload : jsstring) :
  getImageData w file = inr payload ->
  payload <> [] /\ ~ In COMMA payload.
Proof.
  unfold getImageData. destruct file as [f|]; [|discriminate].
  destruct (negb _); [discriminate|].
  destruct (read_fails w f); [discriminate|].
  destruct (nth_error _ 1) as [piece|] eqn:E; [|discriminate].
  destruct (JsString.truthy piece) eqn:T; [|discriminate].
  intros H. injection H as <-. split.
  - intros ->. discriminate T.
  - apply nth_error_In in E.
    exact (proj1 (Forall_forall _ _) (split_pieces COMMA _) _ E).
Qed.

Lemma payload_has_no_prefix_witness :
  getImageData (example_world reply_good) (Some png) = inr (str "iVBORw==") /\
  str "iVBORw==" <> [] /\ ~ In COMMA (str "iVBORw==").
Proof.
  assert (getImageData (example_world reply_good) (Some png) = inr (str "iVBORw=="))
    as H by (vm_compute; reflexivity).
  split; [exact H|]. exact (payload_has_no_prefix _ _ _ H).
Defined.

(** X5. For a file declared as an image (its type, as every media type,
    without a comma), [getImageData] has three outcomes: "Error reading
    file" when the read fails, "Failed to convert image to base64" when
    the file is empty, and the base64 text of the contents otherwise. *)
Theorem getImageData_outcomes (w : World) (f : File) :
  startsWith (str "image/") (type f) = true ->
  ~ In COMMA (type f) ->
  getImageData w (Some f) =
  if read_fails w f then inl (Error error_reading_file)
  else match contents f with
       | [] => inl (Error failed_to_convert)
       | _ :: _ => inr (Base64.encode (contents f))
       end.
Proof.
  intros T C. destruct (read_fails w f) eqn:R.
  - unfold getImageData. now rewrite T, R.
  - rewrite (getImageData_image w f T C R).
    destruct (contents f) as [|b bs] eqn:E; [reflexivity|].
    now rewrite encode_nonempty.
Qed.

Lemma getImageData_outcomes_witness :
  getImageData (example_world reply_good) (Some empty_png) =
    inl (Error failed_to_convert) /\
  getImageData (mkWorld (fun _ => true) (fun _ => NoResult)) (Some png) =
    inl (Error error_reading_file).
Proof.
  assert (~ In COMMA (str "image/png")) as C by (vm_compute; intuition discriminate).
  split.
  - exact (getImageData_outcomes (example_world reply_good) empty_png eq_refl C).
  - exact (getImageData_outcomes (mkWorld (fun _ => true) (fun _ => NoResult))
             png eq_refl C).
Defined.

Lemma requests_app a b : requests (a ++ b) = requests a ++ requests b.
Proof. apply flat_map_app. Qed.

Lemma alerts_app a b : alerts (a ++ b) = alerts a ++ alerts b.
Proof. apply flat_map_app. Qed.

Lemma analyzeImage_effects w d st :
  snd (analyzeImage w d st) = [Request d].
Proof.
  unfold analyzeImage. destruct (generateContent w d) as [e| |t]; try reflexivity.
  destruct (processGeminiResponse t); reflexivity.
Qed.

(** X6. One upload sends at most one request: none when there is no file
    or [getImageData] rejects, and otherwise exactly one, carrying exactly
    what [getImageData] resolved to. *)
Theorem requests_of_upload (w : World) (file : option File) (st : State) :
  requests (snd (onImageChange w file st)) =
  match getImageData w file with
  | inr imageData => [imageData]
  | inl _ => []
  end.
Proof.
  unfold onImageChange. destruct file as [f|]; [|reflexivity].
  destruct (getImageData w (Some f)) as [e|d]; [reflexivity|].
  pose proof (analyzeImage_effects w d (onImageChange_start f st)) as E.
  destruct (analyzeImage _ _ _) as [[[e|v] st2] effects]; cbn [snd] in *;
    subst effects; reflexivity.
Qed.

(** X7. End to end: when a readable, non-empty image file is selected,
    the one request that goes out carries a payload that decodes to the
    file's contents. *)
Theorem upload_sends_contents (w : World) (f : File) (st : State) :
  startsWith (str "image/") (type f) = true ->
  ~ In COMMA (type f) ->
  read_fails w f = false ->
  contents f <> [] ->
  exists payload,
    requests (snd (onImageChange w (Some f) st)) = [payload] /\
    Base64.decode payload = Some (contents f).
Proof.
  intros T C R N. exists (Base64.encode (contents f)).
  split; [|apply decode_encode].
  pose proof (analyzeImage_effects w (Base64.encode (contents f))
                (onImageChange_start f st)) as E.
  unfold onImageChange. rewrite (getImageData_image w f T C R), encode_nonempty by exact N.
  destruct (analyzeImage _ _ _) as [[[e|v] st2] effects]; cbn [snd] in *;
    subst effects; reflexivity.
Qed.

Lemma upload_sends_contents_witness :
  exists payload,
    requests (snd (onImageChange (example_world reply_prose) (Some png) initial)) =
      [payload] /\
    Base64.decode payload = Some (contents png).
Proof.
  assert (~ In COMMA (type png)) as C by (vm_compute; intuition discriminate).
  apply (upload_sends_contents (example_world reply_prose) png initial eq_refl C eq_refl).
  discriminate.
Defined.

Lemma alert_text_nonempty e : alert_text e <> [].
Proof.
  unfold alert_text. destruct (message e) as [|c m]; cbn [JsString.truthy];
    discriminate.
Qed.

(** X8. A completed upload alerts the user exactly when it fails: in the
    result step nothing was alerted; back in the upload step exactly one
    alert was shown, as the last effect, and its text is not empty. *)
Theorem alerts_of_upload (w : World) (f : File) (st : State) :
  let final := fst (onImageChange w (Some f) st) in
  let effects := snd (onImageChange w (Some f) st) in
  (step final = result /\ alerts effects = []) \/
  (step final = upload /\
   exists text before,
     text <> [] /\ effects = before ++ [Alert text] /\ alerts before = []).
Proof.
  cbn zeta. unfold onImageChange.
  destruct (getImageData w (Some f)) as [e|d].
  { right. split; [reflexivity|]. exists (alert_text e), [].
    repeat split. apply alert_text_nonempty. }
  pose proof (analyzeImage_effects w d (onImageChange_start f st)) as E.
  destruct (analyzeImage _ _ _) as [[[e|v] st2] effects]; cbn [snd fst] in *;
    subst effects.
  - right. split; [reflexivity|]. exists (alert_text e), [Request d].
    repeat split. apply alert_text_nonempty.
  - left. split; reflexivity.
Qed.


End UploadExtras.

(** * Properties of the session *)

Section SessionExtras.

Lemma run_app a : forall b s,
  run (a ++ b) s = match run a s with Some s' => run b s' | None => None end.
Proof.
  induction a as [|e a IH]; intros b s; cbn [run app]; [reflexivity|].
  destruct (fire e s); [apply IH | reflexivity].
Qed.

Lemma tick_setCurrentMessageIndex i st :
  tick (setCurrentMessageIndex i st) =
  setCurrentMessageIndex (Nat.modulo (i + 1) 3) st.
Proof. reflexivity. Qed.

Lemma iter_tick n st :
  currentMessageIndex st = 0%nat ->
  Nat.iter n tick st = setCurrentMessageIndex (Nat.modulo n 3) st.
Proof.
  intros H. induction n as [|n IH].
  - destruct st; cbn in *; subst; reflexivity.
  - rewrite Nat.iter_succ, IH, tick_setCurrentMessageIndex. f_equal.
    rewrite Nat.Div0.add_mod_idemp_l. f_equal. lia.
Qed.

(** The rest of [onImageChange] neither reads nor writes the caption
    index. *)
Lemma onImageChange_resume_index w f i st :
  onImageChange_resume w f (setCurrentMessageIndex i st) =
  (setCurrentMessageIndex i (fst (onImageChange_resume w f st)),
   snd (onImageChange_resume w f st)).
Proof.
  unfold onImageChange_resume, analyzeImage.
  destruct (getImageData w (Some f)) as [e|d]; [reflexivity|].
  destruct (generateContent w d) as [e| |t]; try reflexivity.
  destruct (processGeminiResponse t); reflexivity.
Qed.

Lemma fire_Select s f :
  Inv s -> step (state s) = upload ->
  fire (Select (Some f)) s = Some (in_flight f 0 s).
Proof.
  intros [_ J] St. cbn [fire]. unfold view.
  destruct (mounted s); [|destruct J as (K & _); congruence].
  rewrite St in J. destruct J as (P & L & C).
  rewrite (render_upload _ St). cbn [upload_control]. unfold update.
  rewrite render_analyzing by reflexivity.
  cbn [state pending timers mounted log]. rewrite St.
  unfold after_render, run_cleanup, run_effect, in_flight.
  cbn [Step_eqb step onImageChange_start setAnalysis setScore
       setCurrentMessageIndex setStep]. now rewrite C, L.
Qed.

Lemma step_iter_tick n st : step (Nat.iter n tick st) = step st.
Proof. induction n as [|n IH]; [reflexivity|]. rewrite Nat.iter_succ. exact IH. Qed.

Lemma fire_Tick_in_flight f m s :
  fire Tick (in_flight f m s) = Some (in_flight f (S m) s).
Proof.
  assert (step (Nat.iter m tick (onImageChange_start f (state s))) = analyzing)
    as E by (rewrite step_iter_tick; reflexivity).
  assert (step (tick (Nat.iter m tick (onImageChange_start f (state s)))) = analyzing)
    as E' by exact E.
  unfold in_flight at 1. cbn [fire timers live]. unfold update.
  cbn [state]. rewrite (render_analyzing _ E').
  cbn [state pending timers mounted log]. rewrite E, E'.
  reflexivity.
Qed.

Lemma run_ticks f s n :
  run (repeat Tick n) (in_flight f 0 s) = Some (in_flight f n s).
Proof.
  assert (forall k m, run (repeat Tick k) (in_flight f m s) =
                      Some (in_flight f (k + m) s)) as G.
  { induction k as [|k IH]; intros m; [reflexivity|].
    cbn [repeat run]. rewrite fire_Tick_in_flight, (IH (S m)).
    now rewrite Nat.add_succ_r. }
  rewrite (G n 0%nat). now rewrite Nat.add_0_r.
Qed.

(** Where an upload that was started in session [s] ends, ticks or not. *)
Lemma run_upload s f w n :
  Inv s -> step (state s) = upload ->
  exists s',
    run (Select (Some f) :: repeat Tick n ++ [Settle w]) s = Some s' /\
    state s' = setCurrentMessageIndex (Nat.modulo n 3)
                 (fst (onImageChange w (Some f) (state s))) /\
    log s' = log s ++ snd (onImageChange w (Some f) (state s)) /\
    pending s' = None /\ live (timers s') = [] /\
    mounted s' = match render (state s') with Some _ => true | None => false end.
Proof.
  intros I St. cbn [run]. rewrite (fire_Select s f I St), run_app, run_ticks.
  cbn [run fire in_flight pending state].
  rewrite iter_tick by reflexivity.
  rewrite onImageChange_resume_index, <- onImageChange_split.
  set (final := setCurrentMessageIndex _ (fst _)).
  assert (step final <> analyzing) as NA.
  { subst final. cbn [step setCurrentMessageIndex]. rewrite onImageChange_step.
    destruct (getImageData _ _); [discriminate|].
    destruct (fst (fst _)); discriminate. }
  eexists. split; [reflexivity|]. unfold update.
  destruct (render final) eqn:R;
    cbn [state log pending timers mounted]; repeat split.
  - change (step (setCurrentMessageIndex (Nat.modulo n 3)
                     (onImageChange_start f (state s)))) with analyzing.
    unfold after_render, in_flight. cbn [timers].
    destruct (step final) eqn:E; [| congruence |];
      cbn [Step_eqb run_cleanup cleanup run_effect live clearInterval filter
           next_id];
      now rewrite Nat.eqb_refl.
  - now rewrite R.
  - unfold in_flight.
    cbn [timers run_cleanup cleanup live clearInterval filter next_id].
    now rewrite Nat.eqb_refl.
  - now rewrite R.
Qed.

(** X10. The interval does not change how an upload ends.  From any
    reachable session showing the upload control, selecting a file,
    letting the interval fire any number of times and then completing the
    upload leads to the state [onImageChange] computes in one go, except
    for the caption index, and logs the same effects. *)
Theorem upload_with_ticks (s : Session) (f : File) (w : World) (n : nat) :
  reachable s -> step (state s) = upload ->
  exists s',
    run (Select (Some f) :: repeat Tick n ++ [Settle w]) s = Some s' /\
    state s' = setCurrentMessageIndex (Nat.modulo n 3)
                 (fst (onImageChange w (Some f) (state s))) /\
    log s' = log s ++ snd (onImageChange w (Some f) (state s)).
Proof.
  intros R St.
  destruct (run_upload s f w n (reachable_Inv s R) St) as (s' & H1 & H2 & H3 & _).
  eauto.
Qed.

Lemma reachable_initial : reachable initial_session.
Proof. exists []. reflexivity. Qed.

Lemma upload_with_ticks_witness :
  exists s',
    run [Select (Some png); Tick; Tick; Tick; Tick; Settle (example_world reply_good)]
        initial_session = Some s' /\
    state s' = setCurrentMessageIndex 1 session_with_result.
Proof.
  destruct (upload_with_ticks initial_session png (example_world reply_good) 4
              reachable_initial eq_refl) as (s' & H1 & H2 & _).
  exists s'. split; [exact H1 | exact H2].
Defined.



(** X12. While the step is analyzing the screen always shows the picture
    and one of the three captions, and neither the upload control nor the
    results: the caption index never leaves the bounds of [messages]. *)
Theorem caption_always_defined (s : Session) :
  reachable s -> step (state s) = analyzing ->
  exists v m,
    view s = Some v /\ caption v = Some m /\ In m messages /\
    img v <> None /\ upload_control v = false /\ results v = None.
Proof.
  intros R St. destruct (reachable_Inv s R) as [I J]. unfold view.
  destruct (mounted s); [|destruct J as (K & _); congruence].
  rewrite St in J. destruct J as (f & id & _ & Im & _).
  rewrite (render_analyzing _ St).
  destruct (nth_error messages (currentMessageIndex (state s))) as [m|] eqn:E.
  - eexists. exists m. cbn [caption img upload_control results].
    repeat split; [exact (nth_error_In _ _ E) | rewrite Im; discriminate].
  - apply nth_error_None in E. cbn in E. lia.
Qed.

Lemma caption_always_defined_witness :
  exists s v,
    run [Select (Some png); Tick; Tick] initial_session = Some s /\
    view s = Some v /\ caption v = Some (str "Consulting with AI food experts...").
Proof.
  assert (run [Select (Some png); Tick; Tick] initial_session =
          Some (in_flight png 2 initial_session)) as H by reflexivity.
  destruct (caption_always_defined (in_flight png 2 initial_session)
              (ex_intro _ _ H) eq_refl) as (v & m & V & C & _).
  exists (in_flight png 2 initial_session), v. split; [exact H|]. split; [exact V|].
  vm_compute in V. injection V as <-. reflexivity.
Defined.

(** X13. The result step is never reached without a record: in every
    reachable session in the result step the stored analysis is a
    validated reply (truthy [score] and [corners]), the stored score is
    its [score], and what is on screen, if anything, is the results panel
    with the picture. *)
Theorem result_step_has_record (s : Session) :
  reachable s -> step (state s) = result ->
  exists a,
    analysis (state s) = Some a /\ score (state s) = get a (str "score") /\
    truthy_opt (get a (str "score")) = true /\
    truthy_opt (get a (str "corners")) = true /\
    forall v, view s = Some v ->
      results v <> None /\ img v <> None /\
      upload_control v = false /\ caption v = None.
Proof.
  intros R St. destruct (reachable_Inv s R) as [_ J]. unfold view.
  assert (forall a, bad_shape a = false ->
            truthy_opt (get a (str "score")) = true /\
            truthy_opt (get a (str "corners")) = true) as K.
  { intros a B. unfold bad_shape in B. apply orb_false_iff in B as [B B2].
    apply orb_false_iff in B as [_ B1]. now apply negb_false_iff in B1, B2. }
  destruct (mounted s).
  - rewrite St in J. destruct J as (_ & _ & _ & a & A & Sc & B & Im).
    exists a. destruct (K a B) as [K1 K2]. repeat split; try assumption;
      rewrite (render_result _ a St A (bad_shape_truthy _ B)) in H;
      destruct (results_panel _ a); try discriminate;
      injection H as <-; cbn; congruence.
  - destruct J as (_ & _ & _ & a & A & Sc & B & _).
    exists a. destruct (K a B) as [K1 K2]. repeat split; try assumption;
      discriminate.
Qed.

Lemma result_step_has_record_witness :
  exists s a,
    run [Select (Some png); Settle (example_world reply_good)] initial_session =
      Some s /\
    analysis (state s) = Some a /\ score (state s) = get a (str "score") /\
    truthy_opt (get a (str "corners")) = true.
Proof.
  assert (exists s,
            run [Select (Some png); Settle (example_world reply_good)]
                initial_session = Some s /\ step (state s) = result)
    as (s & H & St) by (eexists; split; vm_compute; reflexivity).
  destruct (result_step_has_record s (ex_intro _ _ H) St)
    as (a & A & Sc & _ & Co & _).
  exists s, a. auto.
Defined.

(** X14. One upload at a time: in every reachable session an upload is in
    flight exactly while the step is analyzing, and then neither a new
    file can be selected nor the button pressed. *)
Theorem one_upload_at_a_time (s : Session) :
  reachable s ->
  (pending s <> None <-> step (state s) = analyzing) /\
  (pending s <> None ->
   (forall file, fire (Select file) s = None) /\ fire AnalyzeAnother s = None).
Proof.
  intros R. destruct (reachable_Inv s R) as [_ J].
  assert (pending s <> None -> mounted s = true /\ step (state s) = analyzing) as K.
  { intros P. destruct (mounted s).
    - destruct (step (state s)); [destruct J as (Q & _); congruence | auto |
                                  destruct J as (Q & _); congruence].
    - destruct J as (_ & Q & _). congruence. }
  split; [split|].
  - apply K.
  - intros St. destruct (mounted s); [|destruct J as (Q & _); congruence].
    rewrite St in J. destruct J as (f & id & P & _). congruence.
  - intros P. destruct (K P) as [M St]. cbn [fire]. unfold view.
    rewrite M, (render_analyzing _ St). cbn [upload_control results]. auto.
Qed.

Lemma one_upload_at_a_time_witness :
  fire (Select (Some png)) (in_flight png 0 initial_session) = None.
Proof.
  assert (reachable (in_flight png 0 initial_session)) as R
    by (exists [Select (Some png)]; reflexivity).
  apply (one_upload_at_a_time _ R). discriminate.
Defined.

Lemma corner_lines_null cs : In JNull cs -> corner_lines cs = None.
Proof.
  induction cs as [|c cs IH]; intros H; [destruct H|].
  cbn [corner_lines]. destruct H as [-> | H]; [reflexivity|].
  rewrite (IH H). now destruct (corner_line c).
Qed.

(** X15. Validation does not make a reply displayable.  When an accepted
    reply's [corners] is not an array, or is an array with a [null] in
    it, rendering the results throws: the upload completes in the result
    step, the component is unmounted, nothing is on screen and no event
    can happen any more. *)
Theorem unrenderable_record_unmounts
  (s : Session) (f : File) (w : World) (a c : JSON) :
  reachable s -> step (state s) = upload ->
  step (fst (onImageChange w (Some f) (state s))) = result ->
  analysis (fst (onImageChange w (Some f) (state s))) = Some a ->
  get a (str "corners") = Some c ->
  (forall cs, c <> JArray cs) \/ (exists cs, c = JArray cs /\ In JNull cs) ->
  exists s',
    run [Select (Some f); Settle w] s = Some s' /\
    step (state s') = result /\ analysis (state s') = Some a /\
    view s' = None /\ forall e, fire e s' = None.
Proof.
  intros R St Sr A C H.
  destruct (run_upload s f w 0 (reachable_Inv s R) St)
    as (s' & Run & E & _ & P & L & M).
  exists s'. split; [exact Run|].
  assert (Inv s') as I' by (exact (Inv_run _ _ _ (reachable_Inv s R) Run)).
  assert (step (state s') = result) as Sr' by (now rewrite E).
  assert (analysis (state s') = Some a) as A' by (now rewrite E).
  assert (render (state s') = None) as RN.
  { destruct I' as [_ J]. destruct (mounted s').
    - rewrite Sr' in J. destruct J as (_ & _ & _ & a' & A2 & _ & B & _).
      assert (a' = a) as -> by congruence.
      rewrite (render_result _ a Sr' A' (bad_shape_truthy _ B)).
      unfold results_panel. rewrite C.
      destruct H as [H | (cs & -> & H)].
      + destruct c; try reflexivity. now destruct (H elements).
      + now rewrite (corner_lines_null cs H).
    - symmetry in M. destruct (render (state s')); [discriminate | reflexivity]. }
  rewrite RN in M. repeat split; try assumption.
  - unfold view. now rewrite M.
  - intros [file| |w'|]; cbn [fire]; unfold view; rewrite ?M, ?L, ?P; reflexivity.
Qed.

Lemma unrenderable_record_unmounts_witness :
  exists s',
    run [Select (Some png); Settle (example_world reply_corners_text)]
        initial_session = Some s' /\
    view s' = None.
Proof.
  destruct (unrenderable_record_unmounts initial_session png
              (example_world reply_corners_text)
              (JObject [(str "score", JInt 85);
                        (str "corners", JString (str "none visible"))])
              (JString (str "none visible"))
              reachable_initial eq_refl eq_refl eq_refl eq_refl)
    as (s' & H & _ & _ & V & _).
  - left. intros cs. discriminate.
  - exists s'. split; [exact H | exact V].
Defined.

Lemma children_plain o : plain o = true -> children_opt o = Some (shown o).
Proof. destruct o as [[]|]; try discriminate; reflexivity. Qed.

Lemma corner_lines_plain cs :
  Forall (fun c => (exists ps, c = JObject ps) /\
                   plain (get c (str "name")) = true /\
                   plain (get c (str "angle")) = true /\
                   plain (get c (str "comment")) = true) cs ->
  corner_lines cs =
  Some (map (fun c => mkLine (shown (get c (str "name")))
                             (shown (get c (str "angle")))
                             (shown (get c (str "comment")))) cs).
Proof.
  induction 1 as [|c l ((ps & ->) & N & G & M) F IH]; [reflexivity|].
  cbn [corner_lines map]. rewrite IH. unfold corner_line.
  now rewrite (children_plain _ N), (children_plain _ G), (children_plain _ M).
Qed.

(** X16. A record of the expected form is shown whole and in order: when
    every corner is an object whose [name], [angle] and [comment] are
    numbers or strings (or missing) and the score is a number or a
    string, the results panel has one line per corner, in the order of
    the reply, each showing those three values, followed by the score. *)
Theorem record_shown_in_order (st : State) (a : JSON) (cs : list JSON) :
  step st = result -> analysis st = Some a -> truthy a = true ->
  get a (str "corners") = Some (JArray cs) ->
  plain (score st) = true ->
  Forall (fun c => (exists ps, c = JObject ps) /\
                   plain (get c (str "name")) = true /\
                   plain (get c (str "angle")) = true /\
                   plain (get c (str "comment")) = true) cs ->
  render st =
  Some (mkView false (image st) None
          (Some (mkPanel
                   (map (fun c => mkLine (shown (get c (str "name")))
                                         (shown (get c (str "angle")))
                                         (shown (get c (str "comment")))) cs)
                   (shown (score st))))).
Proof.
  intros St A T C Ps F. rewrite (render_result st a St A T).
  unfold results_panel.
  now rewrite C, (children_plain _ Ps), (corner_lines_plain cs F).
Qed.

Lemma record_shown_in_order_witness :
  render session_with_result =
  Some (mkView false (Some png) None
          (Some (mkPanel [mkLine [JString (str "Top")] [JInt 60]
                                 [JString (str "Crispy")]]
                         [JInt 85]))).
Proof.
  apply (record_shown_in_order session_with_result
           (JObject [(str "score", JInt 85); (str "corners", JArray [corner_top])])
           [corner_top]); try reflexivity.
  repeat constructor. unfold corner_top. eauto.
Defined.

(** X17. After "Analyze Another Samosa" the old record is still stored but
    no longer shown: the screen holds the upload control and nothing
    else. *)
Theorem stale_record_hidden (s s' : Session) :
  reachable s -> fire AnalyzeAnother s = Some s' ->
  view s' = Some (mkView true None None None) /\
  analysis (state s') = analysis (state s) /\ analysis (state s') <> None /\
  score (state s') = score (state s) /\ score (state s') <> None.
Proof.
  intros R F. destruct (reachable_Inv s R) as [_ J].
  cbn [fire] in F. unfold view in F.
  destruct (mounted s); [|discriminate].
  destruct (step (state s)) eqn:St.
  - rewrite (render_upload _ St) in F. discriminate.
  - rewrite (render_analyzing _ St) in F. discriminate.
  - destruct J as (_ & _ & _ & a & A & Sc & B & _).
    rewrite (render_result _ a St A (bad_shape_truthy _ B)) in F.
    destruct (results_panel _ a); [|discriminate]. cbn [results] in F.
    injection F as <-. unfold update, view.
    rewrite render_upload by reflexivity. cbn [mounted state].
    rewrite render_upload by reflexivity.
    cbn [analysis score analyzeAnother setStep]. rewrite A, Sc.
    repeat split; try discriminate.
    unfold bad_shape in B. apply orb_false_iff in B as [B _].
    apply orb_false_iff in B as [_ B]. apply negb_false_iff in B.
    destruct (get a (str "score")); [discriminate | discriminate B].
Qed.

Lemma stale_record_hidden_witness :
  exists s',
    run [Select (Some png); Settle (example_world reply_good); AnalyzeAnother]
        initial_session = Some s' /\
    view s' = Some (mkView true None None None) /\
    score (state s') = Some (JInt 85).
Proof.
  assert (exists s, run [Select (Some png); Settle (example_world reply_good)]
                        initial_session = Some s /\ score (state s) = Some (JInt 85))
    as (s & H & Sc) by (eexists; split; vm_compute; reflexivity).
  assert (exists s', fire AnalyzeAnother s = Some s') as (s' & F).
  { revert H. vm_compute. intros H. injection H as <-. eexists. reflexivity. }
  destruct (stale_record_hidden s s' (ex_intro _ _ H) F) as (V & _ & _ & E & _).
  exists s'. split; [|split; [exact V | congruence]].
  cbn [run] in *. destruct (fire (Select (Some png)) initial_session) as [s1|];
    [|discriminate].
  destruct (fire (Settle _) s1) as [s2|]; [|discriminate].
  injection H as ->. now rewrite F.
Defined.

End SessionExtras.

(** * The greedy span *)

Section GreedySpan.

Import Regex RegexFacts JsonFacts JsStringFacts.

(** ** Parsing a text with more text behind it *)

Lemma skip_ws_app s c r x :
  skip_ws s = c :: r -> skip_ws (s ++ x) = c :: r ++ x.
Proof.
  induction s as [|d s IH]; cbn [skip_ws app]; [discriminate|].
  destruct (is_ws d); [exact IH|]. intros H. injection H as -> ->. reflexivity.
Qed.

Lemma skip_ws_blank s x : skip_ws s = [] -> skip_ws (s ++ x) = skip_ws x.
Proof.
  induction s as [|d s IH]; cbn [skip_ws app]; [reflexivity|].
  destruct (is_ws d); [exact IH | discriminate].
Qed.

Lemma skip_ws_rbrace y : skip_ws (y ++ [RBRACE]) <> [].
Proof.
  induction y as [|d y IH]; cbn [skip_ws app]; [discriminate|].
  destruct (is_ws d); [exact IH | discriminate].
Qed.

Lemma cons_fst_app {A} (a : A) o l (r x : jsstring) :
  cons_fst a o = Some (l, r) ->
  forall o', (forall l', o = Some (l', r) -> o' = Some (l', r ++ x)) ->
  cons_fst a o' = Some (l, r ++ x).
Proof.
  destruct o as [[l' r']|]; cbn [cons_fst]; [|discriminate].
  intros H o' K. injection H as <- <-. now rewrite (K l' eq_refl).
Qed.

Lemma string_chars_app s : forall v r x,
  string_chars s = Some (v, r) -> string_chars (s ++ x) = Some (v, r ++ x).
Proof.
  induction s as [s IH] using (well_founded_induction
    (Wf_nat.well_founded_ltof _ (@List.length code_unit))).
  unfold Wf_nat.ltof in IH.
  intros v r x. destruct s as [|c s]; cbn [string_chars app]; [discriminate|].
  destruct (c =? QUOTE).
  { intros H. now injection H as <- <-. }
  destruct (c =? BACKSLASH).
  - destruct s as [|e s]; [discriminate|]. cbn [app].
    destruct (e =? 117).
    + destruct s as [|h1 [|h2 [|h3 [|h4 s]]]]; try discriminate. cbn [app].
      destruct (hex4 h1 h2 h3 h4); [|discriminate].
      intros H. apply (cons_fst_app _ _ _ _ _ H).
      intros l' K. apply IH; [cbn; lia | exact K].
    + destruct (escape e); [|discriminate].
      intros H. apply (cons_fst_app _ _ _ _ _ H).
      intros l' K. apply IH; [cbn; lia | exact K].
  - destruct (c <? 32); [discriminate|].
    intros H. apply (cons_fst_app _ _ _ _ _ H).
    intros l' K. apply IH; [cbn; lia | exact K].
Qed.

Lemma take_digits_app s : forall ds r x,
  take_digits s = (ds, r) -> r <> [] -> take_digits (s ++ x) = (ds, r ++ x).
Proof.
  induction s as [|c s IH]; intros ds r x; cbn [take_digits app].
  - intros H. injection H as <- <-. congruence.
  - destruct (is_digit c).
    + destruct (take_digits s) as [ds' r'] eqn:E.
      intros H N. injection H as <- <-. now rewrite (IH ds' r' x eq_refl N).
    + intros H _. now injection H as <- <-.
Qed.

Lemma int_part_app s ds r x :
  int_part s = Some (ds, r) -> r <> [] -> int_part (s ++ x) = Some (ds, r ++ x).
Proof.
  unfold int_part. destruct (take_digits s) as [l r'] eqn:E.
  destruct l as [|d l]; [discriminate|]. destruct d.
  - destruct s as [|c s]; [discriminate|]. intros H _. injection H as <- <-.
    cbn [take_digits app] in *. destruct (is_digit c); [|discriminate].
    destruct (take_digits s) as [a b]. injection E as E _ _.
    destruct (take_digits (s ++ x)) as [a' b']. now rewrite E.
  - intros H N. injection H as <- <-.
    now rewrite (take_digits_app s _ _ x E N).
Qed.

Lemma frac_part_app s ds r x :
  frac_part s = Some (ds, r) -> r <> [] -> frac_part (s ++ x) = Some (ds, r ++ x).
Proof.
  unfold frac_part. destruct s as [|c s].
  - intros H. injection H as <- <-. congruence.
  - cbn [app]. destruct (c =? DOT).
    + destruct (take_digits s) as [l r'] eqn:E. destruct l as [|d l]; [discriminate|].
      intros H N. injection H as <- <-. now rewrite (take_digits_app s _ _ x E N).
    + intros H _. now injection H as <- <-.
Qed.

Lemma exp_part_app s e r x :
  exp_part s = Some (e, r) -> r <> [] -> exp_part (s ++ x) = Some (e, r ++ x).
Proof.
  unfold exp_part. destruct s as [|c s].
  - intros H. injection H as <- <-. congruence.
  - cbn [app]. destruct ((c =? 101) || (c =? 69)).
    + destruct (sign_part s) as [neg s''] eqn:E. unfold exp_digits.
      destruct (take_digits s'') as [l r'] eqn:D. destruct l as [|d l]; [discriminate|].
      intros H N. injection H as <- <-.
      assert (s'' <> []) as N2.
      { intros ->. cbn in D. injection D as _ <-. congruence. }
      assert (sign_part (s ++ x) = (neg, s'' ++ x)) as ->.
      { unfold sign_part in *. destruct s as [|g t]; cbn [app].
        - injection E as _ <-. congruence.
        - destruct (g =? MINUS); [now injection E as <- <-|].
          destruct (g =? PLUS); now injection E as <- <-. }
      now rewrite (take_digits_app s'' _ _ x D N).
    + intros H _. now injection H as <- <-.
Qed.

Lemma nonempty_of_length (r s : jsstring) :
  r <> [] -> (List.length r <= List.length s)%nat -> s <> [].
Proof. destruct r; [congruence|]. destruct s; cbn; [lia | discriminate]. Qed.

Lemma unsigned_number_app neg s n r x :
  unsigned_number neg s = Some (n, r) -> r <> [] ->
  unsigned_number neg (s ++ x) = Some (n, r ++ x).
Proof.
  unfold unsigned_number.
  destruct (int_part s) as [[ids s2]|] eqn:E1; [|discriminate].
  destruct (frac_part s2) as [[fds s3]|] eqn:E2; [|discriminate].
  destruct (exp_part s3) as [[e s4]|] eqn:E3; [|discriminate].
  intros H N. injection H as <- <-.
  pose proof (nonempty_of_length _ _ N (exp_part_length _ _ _ E3)) as N3.
  pose proof (nonempty_of_length _ _ N3 (frac_part_length _ _ _ E2)) as N2.
  now rewrite (int_part_app _ _ _ x E1 N2), (frac_part_app _ _ _ x E2 N3),
    (exp_part_app _ _ _ x E3 N).
Qed.

Lemma parse_number_app s n r x :
  parse_number s = Some (n, r) -> r <> [] ->
  parse_number (s ++ x) = Some (n, r ++ x).
Proof.
  unfold parse_number. destruct s as [|c s]; [discriminate|]. cbn [app].
  destruct (c =? MINUS); intros H N.
  - exact (unsigned_number_app _ _ _ _ x H N).
  - exact (unsigned_number_app _ (c :: s) _ _ x H N).
Qed.

Lemma startsWith_more p : forall s x,
  startsWith p s = true -> startsWith p (s ++ x) = true.
Proof.
  induction p as [|a p IH]; intros s x; [reflexivity|].
  destruct s as [|b s]; cbn [startsWith app]; [discriminate|].
  intros H. apply andb_true_iff in H as [H1 H2].
  now rewrite H1, (IH s x H2).
Qed.

Lemma literal_app word v s w r x :
  literal word v s = Parsed w r -> literal word v (s ++ x) = Parsed w (r ++ x).
Proof.
  unfold literal. destruct (startsWith (str word) s) eqn:E; [|discriminate].
  intros H. injection H as <- <-. rewrite (startsWith_more _ _ x E).
  apply startsWith_app in E as [t ->].
  assert (List.length (str word) = String.length word) as L
    by (clear; induction word; simpl; congruence).
  rewrite <- L, <- !app_assoc, !skipn_app, !skipn_all, !Nat.sub_diag.
  reflexivity.
Qed.

(** A value that was parsed with something left behind it, or that is not
    a number, is parsed the same way whatever text is appended.  (A number
    at the very end of the text could go on.) *)
Lemma parse_app fuel :
  (forall s v r x, parse_value fuel s = Parsed v r ->
     r <> [] \/ (forall n, v <> JNumber n) ->
     parse_value fuel (s ++ x) = Parsed v (r ++ x)) /\
  (forall acc s v r x, parse_elements fuel acc s = Parsed v r ->
     parse_elements fuel acc (s ++ x) = Parsed v (r ++ x)) /\
  (forall acc s v r x, parse_members fuel acc s = Parsed v r ->
     parse_members fuel acc (s ++ x) = Parsed v (r ++ x)).
Proof.
  induction fuel as [|f (IHv & IHe & IHm)]; [repeat split; discriminate|].
  repeat split.
  - intros s v r x. cbn [parse_value].
    destruct (skip_ws s) as [|c s'] eqn:E; [discriminate|].
    rewrite (skip_ws_app _ _ _ x E).
    destruct (c =? LBRACE).
    { destruct (skip_ws s') as [|c2 s2] eqn:E2; [discriminate|].
      rewrite (skip_ws_app _ _ _ x E2).
      destruct (c2 =? RBRACE).
      - intros H _. now injection H as <- <-.
      - intros H _. exact (IHm _ _ _ _ x H). }
    destruct (c =? LBRACKET).
    { destruct (skip_ws s') as [|c2 s2] eqn:E2; [discriminate|].
      rewrite (skip_ws_app _ _ _ x E2).
      destruct (c2 =? RBRACKET).
      - intros H _. now injection H as <- <-.
      - intros H _. exact (IHe _ _ _ _ x H). }
    destruct (c =? QUOTE).
    { destruct (string_chars s') as [[y r']|] eqn:E2; [|discriminate].
      intros H _. injection H as <- <-.
      now rewrite (string_chars_app _ _ _ x E2). }
    destruct (c =? 116); [intros H _; exact (literal_app _ _ (c :: s') _ _ x H)|].
    destruct (c =? 102); [intros H _; exact (literal_app _ _ (c :: s') _ _ x H)|].
    destruct (c =? 110); [intros H _; exact (literal_app _ _ (c :: s') _ _ x H)|].
    destruct (parse_number (c :: s')) as [[n r']|] eqn:E2; [|discriminate].
    intros H N. injection H as <- <-.
    assert (r' <> []) as N' by (destruct N as [N|N]; [exact N | now destruct (N n)]).
    change (c :: s' ++ x) with ((c :: s') ++ x).
    now rewrite (parse_number_app _ _ _ x E2 N').
  - intros acc s v r x. cbn [parse_elements].
    destruct (parse_value f s) as [v' r'| |] eqn:E; try discriminate.
    destruct (skip_ws r') as [|c r2] eqn:E2; [discriminate|].
    assert (r' <> []) as N by (intros ->; discriminate E2).
    rewrite (IHv _ _ _ x E (or_introl N)), (skip_ws_app _ _ _ x E2).
    destruct (c =? COMMA); [apply IHe|].
    destruct (c =? RBRACKET); [|discriminate].
    intros H. now injection H as <- <-.
  - intros acc s v r x. cbn [parse_members].
    destruct (skip_ws s) as [|q s1] eqn:E; [discriminate|].
    rewrite (skip_ws_app _ _ _ x E).
    destruct (q =? QUOTE); [|discriminate].
    destruct (string_chars s1) as [[k s2]|] eqn:E1; [|discriminate].
    rewrite (string_chars_app _ _ _ x E1).
    destruct (skip_ws s2) as [|c s3] eqn:E2; [discriminate|].
    rewrite (skip_ws_app _ _ _ x E2).
    destruct (c =? COLON); [|discriminate].
    destruct (parse_value f s3) as [v' r'| |] eqn:E3; try discriminate.
    destruct (skip_ws r') as [|d r2] eqn:E4; [discriminate|].
    assert (r' <> []) as N by (intros ->; discriminate E4).
    rewrite (IHv _ _ _ x E3 (or_introl N)), (skip_ws_app _ _ _ x E4).
    destruct (d =? COMMA); [apply IHm|].
    destruct (d =? RBRACE); [|discriminate].
    intros H. now injection H as <- <-.
Qed.

(** More fuel changes nothing for a parse that succeeded. *)
Lemma parse_more_fuel fuel : forall fuel', (fuel <= fuel')%nat ->
  (forall s v r, parse_value fuel s = Parsed v r ->
     parse_value fuel' s = Parsed v r) /\
  (forall acc s v r, parse_elements fuel acc s = Parsed v r ->
     parse_elements fuel' acc s = Parsed v r) /\
  (forall acc s v r, parse_members fuel acc s = Parsed v r ->
     parse_members fuel' acc s = Parsed v r).
Proof.
  induction fuel as [|f IH]; intros fuel' L; [repeat split; discriminate|].
  destruct fuel' as [|f']; [lia|].
  destruct (IH f' ltac:(lia)) as (IHv & IHe & IHm).
  repeat split.
  - intros s v r. cbn [parse_value].
    destruct (skip_ws s) as [|c s']; [discriminate|].
    destruct (c =? LBRACE).
    { destruct (skip_ws s') as [|c2 s2]; [discriminate|].
      destruct (c2 =? RBRACE); [tauto | apply IHm]. }
    destruct (c =? LBRACKET).
    { destruct (skip_ws s') as [|c2 s2]; [discriminate|].
      destruct (c2 =? RBRACKET); [tauto | apply IHe]. }
    tauto.
  - intros acc s v r. cbn [parse_elements].
    destruct (parse_value f s) as [v' r'| |] eqn:E; try discriminate.
    rewrite (IHv _ _ _ E).
    destruct (skip_ws r') as [|c r2]; [discriminate|].
    destruct (c =? COMMA); [apply IHe | tauto].
  - intros acc s v r. cbn [parse_members].
    destruct (skip_ws s) as [|q s1]; [discriminate|].
    destruct (q =? QUOTE); [|discriminate].
    destruct (string_chars s1) as [[k s2]|]; [|discriminate].
    destruct (skip_ws s2) as [|c s3]; [discriminate|].
    destruct (c =? COLON); [|discriminate].
    destruct (parse_value f s3) as [v' r'| |] eqn:E3; try discriminate.
    rewrite (IHv _ _ _ E3).
    destruct (skip_ws r') as [|d r2]; [discriminate|].
    destruct (d =? COMMA); [apply IHm | tauto].
Qed.

(** A complete JSON object with a further closing brace somewhere behind
    it is no JSON. *)
Lemma parse_object_then_brace s v y :
  Json.parse (LBRACE :: s) = inr v ->
  exists e, Json.parse ((LBRACE :: s) ++ y ++ [RBRACE]) = inl e.
Proof.
  intros P. destruct (parse_brace_object _ _ P) as [ps ->].
  revert P. unfold Json.parse.
  destruct (parse_value (parse_fuel (LBRACE :: s)) (LBRACE :: s))
    as [v r| |] eqn:E; try discriminate.
  destruct (skip_ws r) eqn:B; [|discriminate]. intros H. injection H as ->.
  assert (parse_fuel (LBRACE :: s) <=
          parse_fuel ((LBRACE :: s) ++ y ++ [RBRACE]))%nat as L
    by (unfold parse_fuel; rewrite length_app; lia).
  apply (proj1 (parse_more_fuel _ _ L)) in E.
  apply (proj1 (parse_app _)) with (x := y ++ [RBRACE]) in E;
    [|right; discriminate].
  rewrite E, (skip_ws_blank _ _ B).
  destruct (skip_ws (y ++ [RBRACE])) eqn:K; [now apply skip_ws_rbrace in K|].
  eauto.
Qed.

(** X18. The span is greedy.  When the text from the first [{] up to some
    [}] is complete JSON and another [}] comes later in the reply, the
    extracted span runs to the last [}] and does not parse: the reply is
    rejected, however good the first object is.  So a reply with two
    objects, or with a brace in the prose after the object, is never
    accepted. *)
Theorem later_brace_rejects (pre body middle post : jsstring) (v : JSON) :
  let t := pre ++ (LBRACE :: body ++ [RBRACE]) ++ middle ++ RBRACE :: post in
  is_refusal t = false ->
  ~ In LBRACE pre -> ~ In RBRACE post ->
  Json.parse (LBRACE :: body ++ [RBRACE]) = inr v ->
  processGeminiResponse t = inl (Error could_not_analyze).
Proof.
  intros t R Hpre Hpost P.
  destruct (parse_object_then_brace _ _ middle P) as [e E].
  apply (processGeminiResponse_syntax t
           ((LBRACE :: body ++ [RBRACE]) ++ middle ++ [RBRACE]) e R); [|exact E].
  subst t.
  replace (pre ++ (LBRACE :: body ++ [RBRACE]) ++ middle ++ RBRACE :: post)
    with (pre ++ LBRACE :: (body ++ RBRACE :: middle) ++ RBRACE :: post)
    by (cbn [app]; now rewrite <- !app_assoc).
  rewrite (jsonRegex_match_span pre _ post Hpre Hpost).
  f_equal. cbn [app]. now rewrite <- !app_assoc.
Qed.

Lemma later_brace_rejects_witness :
  Json.parse (qstr "{'score': 85, 'corners': []}") =
    inr (JObject [(str "score", JInt 85); (str "corners", JArray [])]) /\
  processGeminiResponse reply_two_objects = inl (Error could_not_analyze).
Proof.
  assert (Json.parse (qstr "{'score': 85, 'corners': []}") =
          inr (JObject [(str "score", JInt 85); (str "corners", JArray [])]))
    as P by (vm_compute; reflexivity).
  split; [exact P|].
  apply (later_brace_rejects [] (qstr "'score': 85, 'corners': []")
           (qstr " or maybe {'score': 90, 'corners': []") []
           (JObject [(str "score", JInt 85); (str "corners", JArray [])]));
    try exact P.
  - vm_compute. reflexivity.
  - intros [].
  - intros [].
Defined.

End GreedySpan.
